(** * Transfer_Spotify_to_Youtube: the resumable transfer pipeline

    A shallow embedding of [transfer_spotify_to_youtube_music.py]:
    the progress store ([save_progress], [load_progress]), the track
    extractor ([get_spotify_tracks]), the playlist resolver
    ([create_or_get_youtube_playlist]), the add loop
    ([search_and_add_to_playlist]) and the entry point
    ([transfer_playlist]).

    Modelling conventions.
    - A track is the Python dict [{'name': ..., 'artists': [...]}]; two
      tracks are equal when both fields are (Python dict equality, which
      [list.remove] uses).
    - The file system is a finite map from paths to file contents.  The
      code only touches ['playlist_progress.json'].  [json.load] is taken
      to invert [json.dump] on the dictionaries the program writes, so a
      completely written file is represented by the record it encodes; a
      file that was opened for writing but not completely written is
      [Partial].
    - The YouTube and Spotify clients are external: they are parameters.
      A YouTube answer may depend on how many calls of the same kind were
      made before and on the arguments of the call.
    - Every external effect of the add loop is recorded in a trace.
    - Writing the progress file, sleeping and printing do not fail;
      [max_retries] and [delay] are natural numbers. *)

From Stdlib Require Import String.
From stdpp Require Import base strings list gmap.

Local Open Scope string_scope.
Local Open Scope list_scope.

(** ** Data model *)

Record track := Track { name : string; artists : list string }.

Global Instance track_eq_dec : EqDecision track.
Proof. solve_decision. Defined.

(** The dictionary written by [save_progress] (lines 43-47). *)
Record progress := Progress {
  playlist_id : string;
  processed_tracks : list string;
  remaining_tracks : list track
}.

Global Instance progress_eq_dec : EqDecision progress.
Proof. solve_decision. Defined.

(** What a path can hold: a complete JSON document, or the incomplete
    text left behind when a write did not finish (right after
    [open(..., 'w')] the file is empty). *)
Inductive file_content :=
  | Json (p : progress)
  | Partial.

Global Instance file_content_eq_dec : EqDecision file_content.
Proof. solve_decision. Defined.

Inductive exn :=
  | HttpError (msg : string)
  | ValueError (msg : string)
  | KeyError (key : string)
  | JSONDecodeError
  | OtherException (msg : string).

Global Instance exn_eq_dec : EqDecision exn.
Proof. solve_decision. Defined.

Inductive result (A : Type) :=
  | Ok (a : A)
  | Raise (e : exn).
Arguments Ok {A} a.
Arguments Raise {A} e.

(** ** ProgressStore *)

Module Store.

Definition progress_file : string := "playlist_progress.json".

(** [open(path, 'w')]: creates the file or truncates it to length 0. *)
Definition open_w (path : string) (fs : gmap string file_content)
  : gmap string file_content :=
  <[path := Partial]> fs.

(** [json.dump(progress, f)] followed by the close at the end of the
    [with] block: the complete document is in the file. *)
Definition dump_close (path : string) (p : progress)
    (fs : gmap string file_content) : gmap string file_content :=
  <[path := Json p]> fs.

(** The file-system effects of [save_progress], in program order
    (lines 49-50). *)
Definition save_steps (pid : string) (processed : list string)
    (remaining : list track)
  : list (gmap string file_content → gmap string file_content) :=
  [ open_w progress_file;
    dump_close progress_file (Progress pid processed remaining) ].

Definition run_steps
    (steps : list (gmap string file_content → gmap string file_content))
    (fs : gmap string file_content) : gmap string file_content :=
  foldl (λ acc f, f acc) fs steps.

Definition save_progress (pid : string) (processed : list string)
    (remaining : list track) (fs : gmap string file_content)
  : gmap string file_content :=
  run_steps (save_steps pid processed remaining) fs.

(** The file system found after a crash that let only the first [k]
    effects of a save happen. *)
Definition crash_during_save (k : nat) (pid : string)
    (processed : list string) (remaining : list track)
    (fs : gmap string file_content) : gmap string file_content :=
  run_steps (take k (save_steps pid processed remaining)) fs.

(** [load_progress] (lines 59-63): [None] when the file does not exist;
    [json.load] raises on an incomplete document. *)
Definition load_progress (fs : gmap string file_content)
  : result (option progress) :=
  match fs !! progress_file with
  | None => Ok None
  | Some (Json p) => Ok (Some p)
  | Some Partial => Raise JSONDecodeError
  end.

(** Lines 239-240: [if Path(...).exists(): Path(...).unlink()]. *)
Definition clear (fs : gmap string file_content)
  : gmap string file_content :=
  match fs !! progress_file with
  | Some _ => delete progress_file fs
  | None => fs
  end.

End Store.

(** ** TrackExtractor *)

Module Extractor.

(** Raw Spotify items.  A key that may be missing from the JSON object
    is an [option]; the ['track'] key of an item is always there, its
    value may be [null]. *)
Record raw_artist := RawArtist { artist_name : option string }.
Record raw_track := RawTrack {
  track_name : option string;
  track_artists : option (list raw_artist)
}.
Record raw_item := RawItem { item_track : option raw_track }.

(** One page of a paging object: its items, and the ['next'] cursor
    (the offset of the following page) when there is one. *)
Record page := Page { items : list raw_item; next : option nat }.

(** The Spotify client: the collections it serves and the page size of
    each endpoint. *)
Record spotify := Spotify {
  playlist_items : string → list raw_item;
  saved_items : list raw_item;
  playlist_limit : nat;
  saved_limit : nat
}.

Definition page_at (limit : nat) (coll : list raw_item) (offset : nat)
  : page :=
  {| items := take limit (drop offset coll);
     next := if decide (offset + limit < length coll)
             then Some (offset + limit) else None |}.

(** [sp.current_user_saved_tracks(offset=...)] *)
Definition current_user_saved_tracks (sp : spotify) (offset : nat) : page :=
  page_at (saved_limit sp) (saved_items sp) offset.

(** [sp.playlist_tracks(playlist_id)] and [sp.next(results)] *)
Definition playlist_tracks (sp : spotify) (pid : string) (offset : nat)
  : page :=
  page_at (playlist_limit sp) (playlist_items sp pid) offset.

(** The list comprehension of line 93; a missing ['name'] raises
    [KeyError]. *)
Fixpoint artist_names (l : list raw_artist) : option (list string) :=
  match l with
  | [] => Some []
  | a :: l' =>
      match artist_name a with
      | None => None
      | Some n =>
          match artist_names l' with
          | None => None
          | Some ns => Some (n :: ns)
          end
      end
  end.

(** Lines 88-97 for one item: [None] when the item is skipped. *)
Definition descriptor (it : raw_item) : option track :=
  match item_track it with
  | None => None
  | Some t =>
      match track_name t with
      | None => None
      | Some n =>
          match track_artists t with
          | None => None
          | Some arts =>
              match artist_names arts with
              | None => None
              | Some ns => Some (Track n ns)
              end
          end
      end
  end.

(** The [for] loop of lines 86-97 over one page. *)
Fixpoint extend (tracks : list track) (its : list raw_item) : list track :=
  match its with
  | [] => tracks
  | it :: its' =>
      match descriptor it with
      | Some t => extend (tracks ++ [t]) its'
      | None => extend tracks its'
      end
  end.

(** The [while results:] loop of lines 85-105.  [fuel] bounds the
    number of pages fetched; [None] means the bound was reached. *)
Fixpoint pages_loop (fuel : nat) (sp : spotify) (pid : string)
    (liked_songs : bool) (results : page) (tracks : list track)
  : option (list track) :=
  match fuel with
  | O => None
  | S fuel' =>
      let tracks' := extend tracks (items results) in
      match next results with
      | Some cursor =>
          if liked_songs
          then pages_loop fuel' sp pid liked_songs
                 (current_user_saved_tracks sp (length tracks')) tracks'
          else pages_loop fuel' sp pid liked_songs
                 (playlist_tracks sp pid cursor) tracks'
      | None => Some tracks'
      end
  end.

(** [get_spotify_tracks] (lines 78-107). *)
Definition get_spotify_tracks (fuel : nat) (sp : spotify) (pid : string)
    (liked_songs : bool) : option (list track) :=
  let results :=
    if liked_songs then current_user_saved_tracks sp 0
    else playlist_tracks sp pid 0 in
  pages_loop fuel sp pid liked_songs results [].

(** What the extraction is meant to return: the descriptors of the
    items that have the required fields, in source order. *)
Definition descriptors (coll : list raw_item) : list track :=
  omap descriptor coll.

End Extractor.

(** ** The YouTube client and the effects of a run *)

(** A playlist resource as the API returns it. *)
Record playlist := Playlist {
  pl_id : string;
  pl_title : string;
  pl_description : string;
  pl_privacy : string
}.

(** The four requests the program executes.  [search_list k q] is the
    answer to the search executed after [k] earlier searches: the
    ['items'] of the response, each with its ['videoId'] when it has one.
    [playlist_items_insert k pid vid] likewise for the appends. *)
Record youtube := Youtube {
  playlists_list : string → result (list playlist);
  playlists_insert : string → string → string → result playlist;
  search_list : nat → string → result (list (option string));
  playlist_items_insert : nat → string → string → result unit
}.

(** What the program prints. *)
Inductive message :=
  | MsgUsingExisting (id : string)
  | MsgErrorAccessing (err : string)
  | MsgResuming
  | MsgPreviouslyProcessed (n : nat)
  | MsgNoResults (track_name : string)
  | MsgAdded (track_name : string)
  | MsgQuotaExceeded (added : nat)
  | MsgFailed (track_name : string) (max_retries : nat) (err : string)
  | MsgRetrying (attempt : nat) (track_name : string)
  | MsgUnexpected (track_name : string)
  | MsgAllProcessed
  | MsgFoundSaved
  | MsgGettingTracks
  | MsgCreatingPlaylist
  | MsgAddingTracks.

Inductive event :=
  | EPlaylistsList (id : string)
  | EPlaylistsInsert (title description privacy : string)
  | ESearch (query : string)
  | EAppend (pid video_id : string)
  | ESleep (seconds : nat)
  | ESave (p : progress)
  | EUnlink
  | EPrint (m : message).

Global Instance message_eq_dec : EqDecision message.
Proof. solve_decision. Defined.
Global Instance event_eq_dec : EqDecision event.
Proof. solve_decision. Defined.

(** Python truthiness of a [str | None] argument. *)
Definition truthy (s : option string) : bool :=
  match s with
  | Some s' => bool_decide (s' ≠ "")
  | None => false
  end.

(** ** PlaylistResolver *)

Module Resolver.

Definition default_description : string := "Imported from Spotify".

(** [create_or_get_youtube_playlist] (lines 124-160): the value
    returned or the exception raised, and the effects in order. *)
Definition create_or_get_youtube_playlist (yt : youtube)
    (playlist_name playlist_id : option string) (description : string)
  : result playlist * list event :=
  if truthy playlist_id then
    let id := default "" playlist_id in
    match playlists_list yt id with
    | Ok (p :: _) =>
        (Ok p, [EPlaylistsList id; EPrint (MsgUsingExisting id)])
    | Ok [] =>
        (Raise (ValueError ("No playlist found with ID: " +:+ id)),
         [EPlaylistsList id])
    | Raise (HttpError msg) =>
        (Raise (HttpError msg),
         [EPlaylistsList id; EPrint (MsgErrorAccessing msg)])
    | Raise e => (Raise e, [EPlaylistsList id])
    end
  else if truthy playlist_name then
    let title := default "" playlist_name in
    (playlists_insert yt title description "private",
     [EPlaylistsInsert title description "private"])
  else
    (Raise (ValueError
              "Either playlist_name or playlist_id must be provided"),
     []).

End Resolver.

(** ** TransferEngine *)

Module Engine.

(** The state of [search_and_add_to_playlist]: its two lists, the file
    system, how many searches and appends were executed, the effects so
    far, and the values of (processed, remaining) at the end of every
    attempt (ghost, for stating properties of every point of a run). *)
Record state := State {
  processed : list string;
  remaining : list track;
  fs : gmap string file_content;
  searches : nat;
  appends : nat;
  trace : list event;
  snapshots : list (list string * list track)
}.

(** The elementary updates of the state. *)
Definition emit (e : event) (s : state) : state :=
  State (processed s) (remaining s) (fs s) (searches s) (appends s)
        (trace s ++ [e]) (snapshots s).

Definition set_fs (files : gmap string file_content) (s : state) : state :=
  State (processed s) (remaining s) files (searches s) (appends s)
        (trace s) (snapshots s).

(** [processed_tracks.append(n)] *)
Definition add_processed (n : string) (s : state) : state :=
  State (processed s ++ [n]) (remaining s) (fs s) (searches s) (appends s)
        (trace s) (snapshots s).

(** The effect of a successful [remaining_tracks.remove(track)]. *)
Definition set_remaining (rest : list track) (s : state) : state :=
  State (processed s) rest (fs s) (searches s) (appends s)
        (trace s) (snapshots s).

Definition count_search (s : state) : state :=
  State (processed s) (remaining s) (fs s) (S (searches s)) (appends s)
        (trace s) (snapshots s).

Definition count_append (s : state) : state :=
  State (processed s) (remaining s) (fs s) (searches s) (S (appends s))
        (trace s) (snapshots s).

Definition snapshot (s : state) : state :=
  State (processed s) (remaining s) (fs s) (searches s) (appends s)
        (trace s) (snapshots s ++ [(processed s, remaining s)]).

Definition print (m : message) (s : state) : state := emit (EPrint m) s.

Definition sleep (seconds : nat) (s : state) : state :=
  emit (ESleep seconds) s.

(** [save_progress(playlist_id, processed_tracks, remaining_tracks)] *)
Definition save (pid : string) (s : state) : state :=
  emit (ESave (Progress pid (processed s) (remaining s)))
    (set_fs (Store.save_progress pid (processed s) (remaining s) (fs s)) s).

(** [youtube.search().list(q=query, ...).execute()] *)
Definition do_search (yt : youtube) (query : string) (s : state)
  : result (list (option string)) * state :=
  (search_list yt (searches s) query, emit (ESearch query) (count_search s)).

(** [youtube.playlistItems().insert(...).execute()] *)
Definition do_append (yt : youtube) (pid vid : string) (s : state)
  : result unit * state :=
  (playlist_items_insert yt (appends s) pid vid,
   emit (EAppend pid vid) (count_append s)).

(** Python's [list.remove]: drops the first element equal to [t];
    [None] stands for the [ValueError] raised when there is none. *)
Fixpoint list_remove (t : track) (l : list track) : option (list track) :=
  match l with
  | [] => None
  | x :: l' =>
      if decide (x = t) then Some l'
      else match list_remove t l' with
           | Some r => Some (x :: r)
           | None => None
           end
  end.

(** ["quotaExceeded" in str(e)] *)
Definition quota_exceeded (msg : string) : bool :=
  match String.index 0 "quotaExceeded" msg with
  | Some _ => true
  | None => false
  end.

(** Line 182: the search query. *)
Definition query_of (t : track) : string :=
  name t +:+ " " +:+ String.concat " " (artists t).

(** How one pass through the body of the [while] loop ends. *)
Inductive control :=
  | Break                      (* leave the [while] loop *)
  | Again (retry_count : nat)  (* back to the loop condition *)
  | Return.                    (* leave the function *)

(** The two [except] clauses (lines 217-234). *)
Definition handle (pid : string) (max_retries delay : nat) (t : track)
    (retry_count : nat) (e : exn) (s : state) : control * state :=
  match e with
  | HttpError msg =>
      if quota_exceeded msg then
        (Return,
         save pid (print (MsgQuotaExceeded (length (processed s))) s))
      else
        let retry_count' := S retry_count in
        if decide (retry_count' = max_retries) then
          (Again retry_count',
           print (MsgFailed (name t) max_retries msg) s)
        else
          (Again retry_count',
           sleep (delay * 2) (print (MsgRetrying retry_count' (name t)) s))
  | _ => (Break, print (MsgUnexpected (name t)) s)
  end.

(** The [try] block (lines 182-215) with its handlers. *)
Definition attempt (yt : youtube) (pid : string) (max_retries delay : nat)
    (t : track) (retry_count : nat) (s : state) : control * state :=
  let (found, s1) := do_search yt (query_of t) s in
  match found with
  | Raise e => handle pid max_retries delay t retry_count e s1
  | Ok [] => (Break, print (MsgNoResults (name t)) s1)
  | Ok (None :: _) =>
      handle pid max_retries delay t retry_count (KeyError "videoId") s1
  | Ok (Some vid :: _) =>
      let (added, s2) := do_append yt pid vid s1 in
      match added with
      | Raise e => handle pid max_retries delay t retry_count e s2
      | Ok _ =>
          let s3 := add_processed (name t) (print (MsgAdded (name t)) s2) in
          match list_remove t (remaining s3) with
          | None =>
              handle pid max_retries delay t retry_count
                (ValueError "list.remove(x): x not in list") s3
          | Some rest =>
              (Break, sleep delay (save pid (set_remaining rest s3)))
          end
      end
  end.

(** How the [while] loop of one track ends: the [for] loop goes on to
    the next track, or the function returns. *)
Inductive flow := NextTrack | Stop.

(** [while retry_count < max_retries] (line 180).  [left] is
    [max_retries - retry_count]: the condition holds exactly when it is
    not zero, and it decreases with every [Again]. *)
Fixpoint while_loop (left : nat) (yt : youtube) (pid : string)
    (max_retries delay : nat) (t : track) (retry_count : nat) (s : state)
  : flow * state :=
  match left with
  | O => (NextTrack, s)
  | S left' =>
      let (c, s') := attempt yt pid max_retries delay t retry_count s in
      let s'' := snapshot s' in
      match c with
      | Break => (NextTrack, s'')
      | Return => (Stop, s'')
      | Again retry_count' =>
          while_loop left' yt pid max_retries delay t retry_count' s''
      end
  end.

(** The same loop with the condition of line 180 tested as written and a
    separate bound on the number of passes; [None] when the bound is
    reached. *)
Fixpoint while_loop_guarded (fuel : nat) (yt : youtube) (pid : string)
    (max_retries delay : nat) (t : track) (retry_count : nat) (s : state)
  : option (flow * state) :=
  match fuel with
  | O => None
  | S fuel' =>
      if decide (retry_count < max_retries) then
        let (c, s') := attempt yt pid max_retries delay t retry_count s in
        let s'' := snapshot s' in
        match c with
        | Break => Some (NextTrack, s'')
        | Return => Some (Stop, s'')
        | Again retry_count' =>
            while_loop_guarded fuel' yt pid max_retries delay t
              retry_count' s''
        end
      else Some (NextTrack, s)
  end.

(** [for track in remaining_tracks[:]] (line 178): the loop runs over a
    copy of the list taken before the first iteration. *)
Fixpoint for_loop (yt : youtube) (pid : string) (max_retries delay : nat)
    (copy : list track) (s : state) : flow * state :=
  match copy with
  | [] => (NextTrack, s)
  | t :: copy' =>
      match while_loop max_retries yt pid max_retries delay t 0 s with
      | (Stop, s') => (Stop, s')
      | (NextTrack, s') => for_loop yt pid max_retries delay copy' s'
      end
  end.

(** How a call ends. *)
Inductive ending :=
  | Finished            (* fell off the end of the function *)
  | QuotaStop           (* the [return] of line 223 *)
  | Raised (e : exn).   (* an exception left the function *)

Definition init_state (processed : list string) (remaining : list track)
    (files : gmap string file_content) (tr : list event) : state :=
  State processed remaining files 0 0 tr [(processed, remaining)].

(** Lines 167-176: where the loop starts from. *)
Definition start (pid : string) (tracks : list track)
    (files : gmap string file_content) : result state :=
  match Store.load_progress files with
  | Raise e => Raise e
  | Ok (Some p) =>
      if decide (playlist_id p = pid) then
        Ok (init_state (processed_tracks p) (remaining_tracks p) files
              [EPrint MsgResuming;
               EPrint (MsgPreviouslyProcessed
                         (length (processed_tracks p)))])
      else Ok (init_state [] tracks files [])
  | Ok None => Ok (init_state [] tracks files [])
  end.

(** Lines 236-240. *)
Definition finish (s : state) : state :=
  match remaining s with
  | [] =>
      let s1 := print MsgAllProcessed s in
      match fs s1 !! Store.progress_file with
      | Some _ =>
          emit EUnlink (set_fs (Store.clear (fs s1)) s1)
      | None => s1
      end
  | _ :: _ => s
  end.

(** [search_and_add_to_playlist] (lines 162-240). *)
Definition search_and_add_to_playlist (yt : youtube) (pid : string)
    (tracks : list track) (max_retries delay : nat)
    (files : gmap string file_content) : ending * option state :=
  match start pid tracks files with
  | Raise e => (Raised e, None)
  | Ok s0 =>
      match for_loop yt pid max_retries delay (remaining s0) s0 with
      | (Stop, s) => (QuotaStop, Some s)
      | (NextTrack, s) => (Finished, Some (finish s))
      end
  end.

Definition default_max_retries : nat := 3.
Definition default_delay : nat := 2.

End Engine.

(** ** Entry point *)

Module Transfer.

(** How [transfer_playlist] ends: an exception raised before the add
    loop was entered, or the end of the add loop called with the given
    playlist id and track list. *)
Inductive run :=
  | Aborted (e : exn) (before : list event)
  | Ran (pid : string) (tracks : list track) (before : list event)
        (loop_end : Engine.ending) (final : option Engine.state).

(** [transfer_playlist] (lines 255-283).  The two client constructors
    are outside the model: the clients are arguments.  [None] means the
    extraction did not finish within [fuel] pages. *)
Definition transfer_playlist (fuel : nat) (sp : Extractor.spotify)
    (yt : youtube)
    (spotify_playlist_id youtube_playlist_name youtube_playlist_id
       : option string)
    (spotify_liked_songs : bool) (files : gmap string file_content)
  : option run :=
  if negb (truthy youtube_playlist_name) && negb (truthy youtube_playlist_id)
  then Some (Aborted (ValueError
         "Either youtube_playlist_name or youtube_playlist_id must be provided")
         [])
  else if negb (truthy spotify_playlist_id) && negb spotify_liked_songs
  then Some (Aborted (ValueError
         "Either spotify_playlist_id must be provided or spotify_liked_songs must be True")
         [])
  else
    match Store.load_progress files with
    | Raise e => Some (Aborted e [])
    | Ok (Some p) =>
        let before := [EPrint MsgFoundSaved; EPrint MsgAddingTracks] in
        let pid := playlist_id p in
        let tracks := remaining_tracks p in
        let (e, s) :=
          Engine.search_and_add_to_playlist yt pid tracks
            Engine.default_max_retries Engine.default_delay files in
        Some (Ran pid tracks before e s)
    | Ok None =>
        match Extractor.get_spotify_tracks fuel sp
                (default "" spotify_playlist_id) spotify_liked_songs with
        | None => None
        | Some tracks =>
            let (r, evs) :=
              Resolver.create_or_get_youtube_playlist yt
                youtube_playlist_name youtube_playlist_id
                Resolver.default_description in
            let before :=
              [EPrint MsgGettingTracks; EPrint MsgCreatingPlaylist] ++ evs in
            match r with
            | Raise e => Some (Aborted e before)
            | Ok pl =>
                let before' := before ++ [EPrint MsgAddingTracks] in
                let (e, s) :=
                  Engine.search_and_add_to_playlist yt (pl_id pl) tracks
                    Engine.default_max_retries Engine.default_delay files in
                Some (Ran (pl_id pl) tracks before' e s)
            end
        end
    end.

End Transfer.

(** ** Observations on traces and snapshots *)

Module Obs.

(** The pauses of a trace, in order. *)
Definition waits (tr : list event) : list nat :=
  omap (λ e, match e with ESleep n => Some n | _ => None end) tr.

(** The append requests of a trace, in order. *)
Definition append_calls (tr : list event) : list (string * string) :=
  omap (λ e, match e with EAppend p v => Some (p, v) | _ => None end) tr.

Definition search_calls (tr : list event) : list string :=
  omap (λ e, match e with ESearch q => Some q | _ => None end) tr.

(** The playlist look-ups and the playlist creations of a trace. *)
Definition lookups (tr : list event) : list string :=
  omap (λ e, match e with EPlaylistsList i => Some i | _ => None end) tr.

Definition creations (tr : list event) : list (string * string * string) :=
  omap (λ e, match e with
             | EPlaylistsInsert t d p => Some (t, d, p)
             | _ => None
             end) tr.

Definition saves (tr : list event) : list progress :=
  omap (λ e, match e with ESave p => Some p | _ => None end) tr.

(** What happened between two states of the same run. *)
Definition since (s s' : Engine.state) : list event :=
  drop (length (Engine.trace s)) (Engine.trace s').

(** The names a pair (processed, remaining) accounts for. *)
Definition names_of (snap : list string * list track) : list string :=
  snap.1 ++ map name snap.2.


(** Between two consecutive points nothing changed, or one track left
    [remaining] and its name was appended to [processed]. *)
Definition moved_one (a b : list string * list track) : Prop :=
  a = b ∨
  ∃ t, t ∈ a.2 ∧ b.1 = a.1 ++ [name t] ∧
       Engine.list_remove t a.2 = Some b.2.

Fixpoint chain (R : list string * list track →
                    list string * list track → Prop)
    (l : list (list string * list track)) : Prop :=
  match l with
  | a :: (b :: _) as l' => R a b ∧ chain R l'
  | _ => True
  end.

Definition unlinks (tr : list event) : list unit :=
  omap (λ e, match e with EUnlink => Some () | _ => None end) tr.

(** The progress file holds the last record saved during the run, or
    what it held before the run when nothing was saved. *)
Definition file_follows_saves (files0 : gmap string file_content)
    (s : Engine.state) : Prop :=
  Engine.fs s !! Store.progress_file
  = match last (saves (Engine.trace s)) with
    | Some p => Some (Json p)
    | None => files0 !! Store.progress_file
    end.

(** What one pass through the [try] statement can do to the state. *)
Inductive attempt_effect (pid : string) (t : track)
    (s s' : Engine.state) : Engine.control → Prop :=
  | Kept c evs :
      c ≠ Engine.Return →
      Engine.processed s' = Engine.processed s →
      Engine.remaining s' = Engine.remaining s →
      Engine.fs s' = Engine.fs s →
      Engine.trace s' = Engine.trace s ++ evs →
      saves evs = [] →
      unlinks evs = [] →
      Engine.snapshots s' = Engine.snapshots s →
      attempt_effect pid t s s' c
  | Halted evs :
      Engine.processed s' = Engine.processed s →
      Engine.remaining s' = Engine.remaining s →
      Engine.fs s'
      = Store.save_progress pid (Engine.processed s) (Engine.remaining s)
          (Engine.fs s) →
      Engine.trace s' = Engine.trace s ++ evs →
      saves evs
      = [Progress pid (Engine.processed s) (Engine.remaining s)] →
      unlinks evs = [] →
      Engine.snapshots s' = Engine.snapshots s →
      attempt_effect pid t s s' Engine.Return
  | Added rest evs :
      Engine.list_remove t (Engine.remaining s) = Some rest →
      Engine.processed s' = Engine.processed s ++ [name t] →
      Engine.remaining s' = rest →
      Engine.fs s'
      = Store.save_progress pid (Engine.processed s ++ [name t]) rest
          (Engine.fs s) →
      Engine.trace s' = Engine.trace s ++ evs →
      saves evs = [Progress pid (Engine.processed s ++ [name t]) rest] →
      unlinks evs = [] →
      Engine.snapshots s' = Engine.snapshots s →
      attempt_effect pid t s s' Engine.Break
  | Lost c :
      Engine.list_remove t (Engine.remaining s) = None →
      attempt_effect pid t s s' c.

(** What holds at every point of a run that started from the lists
    [first] and the files [files0]. *)
Record run_inv (first : list string * list track)
    (files0 : gmap string file_content) (s : Engine.state) : Prop := RunInv {
  inv_first : head (Engine.snapshots s) = Some first;
  inv_last :
    last (Engine.snapshots s) = Some (Engine.processed s, Engine.remaining s);
  inv_names :
    Forall (λ sn, names_of sn ≡ₚ names_of first) (Engine.snapshots s);
  inv_chain : chain moved_one (Engine.snapshots s);
  inv_no_unlink : unlinks (Engine.trace s) = [];
  inv_file : file_follows_saves files0 s
}.

(** The statement that a save interrupted after [k] effects leaves the
    old record or the new one. *)
Definition atomic_at (k : nat) (pid : string) (processed : list string)
    (remaining : list track) (files : gmap string file_content) : Prop :=
  let after :=
    Store.crash_during_save k pid processed remaining files in
  after !! Store.progress_file = files !! Store.progress_file ∨
  after !! Store.progress_file
    = Some (Json (Progress pid processed remaining)).

(** A trace without any request, pause or save. *)
Definition no_requests (tr : list event) : Prop :=
  search_calls tr = [] ∧ append_calls tr = [] ∧ waits tr = []
  ∧ saves tr = [].

(** What an effect of the add loop on playlist [pid] with pause [delay]
    can be: an append to [pid], a save of a record that names [pid], a
    pause of [delay] or twice [delay], a search, a message, the removal
    of the progress file; never a playlist look-up or creation. *)
Definition loop_event (pid : string) (delay : nat) (e : event) : Prop :=
  match e with
  | EAppend p _ => p = pid
  | ESave r => playlist_id r = pid
  | ESleep n => n = delay ∨ n = delay * 2
  | EPlaylistsList _ | EPlaylistsInsert _ _ _ => False
  | ESearch _ | EPrint _ | EUnlink => True
  end.

(** An exception that the first [except] clause does not catch. *)
Definition not_http (e : exn) : Prop :=
  match e with
  | HttpError _ => False
  | _ => True
  end.

(** The first attempt on [t] from [s] runs into something that is not an
    [HttpError]: the search raises it, the first hit has no video id, or
    the append raises it. *)
Definition unexpected_failure (yt : youtube) (pid : string) (t : track)
    (s : Engine.state) : Prop :=
  (∃ e, search_list yt (Engine.searches s) (Engine.query_of t) = Raise e
        ∧ not_http e)
  ∨ (∃ rest, search_list yt (Engine.searches s) (Engine.query_of t)
             = Ok (None :: rest))
  ∨ (∃ vid rest e,
       search_list yt (Engine.searches s) (Engine.query_of t)
       = Ok (Some vid :: rest)
       ∧ playlist_items_insert yt (Engine.appends s) pid vid = Raise e
       ∧ not_http e).

End Obs.

(** ** Concrete inputs *)

Module Examples.

Definition song_a : track := Track "a" ["x"].
Definition song_b : track := Track "b" ["y"; "z"].
Definition song_c : track := Track "c" [].
Definition song_d : track := Track "d" ["w"].
Definition song_e : track := Track "e" ["v"].

Definition created (title description privacy : string)
  : result playlist :=
  Ok (Playlist "PL-new" title description privacy).

(** Every search finds a video, every append succeeds. *)
Definition yt_ok : youtube :=
  Youtube (λ id, Ok [Playlist id "existing" "" "private"]) created
    (λ _ q, Ok [Some ("v:" +:+ q)]) (λ _ _ _, Ok ()).

(** No search finds anything. *)
Definition yt_nothing : youtube :=
  Youtube (λ _, Ok []) created (λ _ _, Ok []) (λ _ _ _, Ok ()).

(** Every append fails with an error that is not about the quota. *)
Definition yt_failing : youtube :=
  Youtube (λ _, Ok []) created
    (λ _ q, Ok [Some ("v:" +:+ q)])
    (λ _ _ _, Raise (HttpError "HttpError 409: conflict")).

(** The third append hits the quota. *)
Definition yt_quota : youtube :=
  Youtube (λ id, Ok [Playlist id "existing" "" "private"]) created
    (λ _ q, Ok [Some ("v:" +:+ q)])
    (λ k _ _, if decide (k = 2)
              then Raise (HttpError "HttpError 403: quotaExceeded")
              else Ok ()).

Definition five : list track := [song_a; song_b; song_c; song_d; song_e].

Definition no_files : gmap string file_content := ∅.

(** A record left by a transfer into playlist ["PL-A"]. *)
Definition record_a : progress := Progress "PL-A" ["c"] [song_b].
Definition files_a : gmap string file_content :=
  {[ Store.progress_file := Json record_a ]}.

Definition valid_item (n : string) : Extractor.raw_item :=
  Extractor.RawItem
    (Some (Extractor.RawTrack (Some n)
             (Some [Extractor.RawArtist (Some "artist")]))).

(** An item whose track is [null]. *)
Definition null_item : Extractor.raw_item := Extractor.RawItem None.

(** An item whose track has no ['name']. *)
Definition nameless_item : Extractor.raw_item :=
  Extractor.RawItem
    (Some (Extractor.RawTrack None
             (Some [Extractor.RawArtist (Some "artist")]))).

Definition three_items : list Extractor.raw_item :=
  [null_item; valid_item "s1"; valid_item "s2"].

(** A library served two items per page. *)
Definition sp_small : Extractor.spotify :=
  Extractor.Spotify (λ _, three_items) three_items 2 2.

Definition sp_empty : Extractor.spotify :=
  Extractor.Spotify (λ _, []) [] 100 20.

(** Twenty-one saved tracks, the first of them unavailable, served
    twenty per page. *)
Definition library21 : list Extractor.raw_item :=
  null_item ::
  map valid_item
    ["s01"; "s02"; "s03"; "s04"; "s05"; "s06"; "s07"; "s08"; "s09"; "s10";
     "s11"; "s12"; "s13"; "s14"; "s15"; "s16"; "s17"; "s18"; "s19"; "s20"].

Definition sp_library21 : Extractor.spotify :=
  Extractor.Spotify (λ _, library21) library21 100 20.

(** A first page in which nothing can be used. *)
Definition sp_stuck : Extractor.spotify :=
  Extractor.Spotify (λ _, []) [null_item; null_item; valid_item "s1"] 2 2.

(** The first append is refused for a reason other than the quota, the
    later ones succeed. *)
Definition yt_flaky : youtube :=
  Youtube (λ _, Ok []) created
    (λ _ q, Ok [Some ("v:" +:+ q)])
    (λ k _ _, if decide (k = 0)
              then Raise (HttpError "HttpError 500: backend error")
              else Ok ()).

(** Searching is refused because the quota is used up. *)
Definition yt_search_quota : youtube :=
  Youtube (λ _, Ok []) created
    (λ _ _, Raise (HttpError "HttpError 403: quotaExceeded"))
    (λ _ _ _, Ok ()).

(** The connection breaks during the search. *)
Definition yt_offline : youtube :=
  Youtube (λ _, Ok []) created
    (λ _ _, Raise (OtherException "connection reset"))
    (λ _ _ _, Ok ()).

(** A library of three usable items served two per page. *)
Definition sp_all_valid : Extractor.spotify :=
  Extractor.Spotify (λ _, [])
    [valid_item "s1"; valid_item "s2"; valid_item "s3"] 100 2.

(** A library that fits in one page and has unusable items. *)
Definition sp_one_page : Extractor.spotify :=
  Extractor.Spotify (λ _, three_items) three_items 100 20.

End Examples.

(** * Properties *)

(** ** ProgressStore *)

Section StoreFacts.

Import Store.
Implicit Types (files : gmap string file_content).

Lemma save_progress_insert pid processed remaining files :
  save_progress pid processed remaining files
  = <[progress_file := Json (Progress pid processed remaining)]> files.
Proof.
  unfold save_progress, run_steps, save_steps, open_w, dump_close. simpl.
  apply insert_insert_eq.
Qed.

Lemma load_after_save pid processed remaining files :
  load_progress (save_progress pid processed remaining files)
  = Ok (Some (Progress pid processed remaining)).
Proof.
  rewrite save_progress_insert. unfold load_progress.
  by rewrite lookup_insert_eq.
Qed.

Lemma load_none_iff files :
  load_progress files = Ok None ↔ files !! progress_file = None.
Proof.
  unfold load_progress.
  destruct (files !! progress_file) as [[p|]|]; split; congruence.
Qed.

Lemma clear_lookup files : clear files !! progress_file = None.
Proof.
  unfold clear. destruct (files !! progress_file) eqn:E; [|done].
  apply lookup_delete_eq.
Qed.

Lemma saved_is_present pid processed remaining files :
  is_Some (save_progress pid processed remaining files !! progress_file).
Proof. rewrite save_progress_insert, lookup_insert_eq. eauto. Qed.

End StoreFacts.

(** C10.  The store round-trips: loading after [save_progress] returns a
    record whose three fields are the saved values; [load_progress]
    returns absence exactly when the progress file does not exist, which
    is the case when nothing was ever saved and after the record was
    cleared. *)
Theorem C10_store_round_trip :
  ∀ (pid : string) (processed : list string) (remaining : list track)
    (files : gmap string file_content),
    (∃ p, Store.load_progress
            (Store.save_progress pid processed remaining files) = Ok (Some p)
          ∧ playlist_id p = pid
          ∧ processed_tracks p = processed
          ∧ remaining_tracks p = remaining)
    ∧ (Store.load_progress files = Ok None
       ↔ files !! Store.progress_file = None)
    ∧ Store.load_progress ∅ = Ok None
    ∧ Store.load_progress (Store.clear files) = Ok None
    ∧ Store.load_progress
        (Store.clear (Store.save_progress pid processed remaining files))
      = Ok None.
Proof.
  intros pid processed remaining files. repeat split.
  - exists (Progress pid processed remaining).
    by rewrite load_after_save.
  - apply load_none_iff.
  - apply load_none_iff.
  - apply load_none_iff, clear_lookup.
  - apply load_none_iff, clear_lookup.
Qed.

(** C9, as stated, fails: a save interrupted after its first effect (the
    file has been opened for writing, hence truncated) leaves neither the
    old record nor the new one. *)
Lemma C9_counterexample :
  ¬ Obs.atomic_at 1 "PL-A" ["c"; "b"] [] Examples.files_a
  ∧ Store.load_progress
      (Store.crash_during_save 1 "PL-A" ["c"; "b"] [] Examples.files_a)
    = Raise JSONDecodeError.
Proof.
  split.
  - unfold Obs.atomic_at. vm_compute. intros [H|H]; discriminate H.
  - vm_compute. reflexivity.
Qed.

(** C9, amended.  A completed save overwrites the single record
    wholesale: whatever the progress file held, it then holds exactly the
    new record, and no other file changes.  The save is not atomic: it
    truncates the file and then writes it, so a crash before the first
    effect leaves the old state, a crash after the truncation leaves an
    incomplete file that [load_progress] cannot read, and only after the
    second effect is the new record in place. *)
Theorem C9_save_overwrites_not_atomic :
  ∀ (pid : string) (processed : list string) (remaining : list track)
    (files : gmap string file_content),
    Store.save_progress pid processed remaining files
    = <[Store.progress_file := Json (Progress pid processed remaining)]> files
    ∧ Store.crash_during_save 0 pid processed remaining files = files
    ∧ Store.crash_during_save 1 pid processed remaining files
        !! Store.progress_file = Some Partial
    ∧ Store.load_progress
        (Store.crash_during_save 1 pid processed remaining files)
      = Raise JSONDecodeError
    ∧ (∀ k, Store.crash_during_save (2 + k) pid processed remaining files
            = Store.save_progress pid processed remaining files).
Proof.
  intros pid processed remaining files.
  split; [apply save_progress_insert|].
  split; [reflexivity|].
  assert (Store.crash_during_save 1 pid processed remaining files
            !! Store.progress_file = Some Partial) as H.
  { unfold Store.crash_during_save, Store.run_steps, Store.save_steps,
      Store.open_w. simpl. apply lookup_insert_eq. }
  split; [exact H|].
  split; [unfold Store.load_progress; by rewrite H|].
  intros k. unfold Store.crash_during_save, Store.save_progress.
  by rewrite take_ge by (simpl; lia).
Qed.

(** ** PlaylistResolver *)

(** C8.  An id that is given wins over a name: the answer does not
    depend on the name and nothing is created.  When the destination
    reports no playlist for the id (an empty answer, or an error of its
    own), the call fails after that single request: a [ValueError] saying
    that no playlist was found, or the destination's error re-raised.
    When only a name is given, one playlist is created with that name and
    description and privacy ["private"], and what the destination
    returns for it (the resource carrying the fresh id) is returned.
    When neither is given a [ValueError] is raised and no request is
    made. *)
Theorem C8_resolver :
  ∀ (yt : youtube) (playlist_name playlist_id : option string)
    (description : string),
    let call :=
      Resolver.create_or_get_youtube_playlist yt playlist_name playlist_id
        description in
    (∀ id, playlist_id = Some id → id ≠ "" →
       call = Resolver.create_or_get_youtube_playlist yt None playlist_id
                description
       ∧ Obs.lookups call.2 = [id]
       ∧ Obs.creations call.2 = []
       ∧ (playlists_list yt id = Ok [] →
          call = (Raise (ValueError ("No playlist found with ID: " +:+ id)),
                  [EPlaylistsList id]))
       ∧ (∀ e, playlists_list yt id = Raise e → call.1 = Raise e)
       ∧ (∀ p ps, playlists_list yt id = Ok (p :: ps) → call.1 = Ok p))
    ∧ (truthy playlist_id = false →
       ∀ n, playlist_name = Some n → n ≠ "" →
         call = (playlists_insert yt n description "private",
                 [EPlaylistsInsert n description "private"])
         ∧ Obs.lookups call.2 = []
         ∧ Obs.creations call.2 = [(n, description, "private")]
         ∧ (∀ pl, playlists_insert yt n description "private" = Ok pl →
                  call.1 = Ok pl))
    ∧ (truthy playlist_id = false → truthy playlist_name = false →
       call = (Raise (ValueError
                 "Either playlist_name or playlist_id must be provided"),
               [])).
Proof.
  intros yt playlist_name playlist_id description call. subst call.
  unfold Resolver.create_or_get_youtube_playlist.
  split; [|split].
  - intros id -> Hid.
    assert (truthy (Some id) = true) as ->
      by (simpl; by apply bool_decide_eq_true).
    simpl. destruct (playlists_list yt id) as [[|p ps]|e] eqn:E;
      [ | | destruct e]; repeat split; try done;
      intros; by simplify_eq.
  - intros Hid n -> Hn. rewrite Hid.
    assert (truthy (Some n) = true) as ->
      by (simpl; by apply bool_decide_eq_true).
    simpl. repeat split; done.
  - intros -> ->. done.
Qed.

Lemma C8_resolver_witness :
  Resolver.create_or_get_youtube_playlist Examples.yt_nothing
    (Some "mix") (Some "PL-X") Resolver.default_description
  = (Raise (ValueError "No playlist found with ID: PL-X"),
     [EPlaylistsList "PL-X"]).
Proof.
  pose proof (C8_resolver Examples.yt_nothing (Some "mix") (Some "PL-X")
                Resolver.default_description) as H.
  cbv zeta in H. destruct H as (Hid & _).
  destruct (Hid "PL-X" eq_refl) as (_ & _ & _ & Hnone & _).
  - discriminate.
  - exact (Hnone eq_refl).
Defined.

(** ** TrackExtractor *)

Section ExtractorFacts.

Import Extractor.

Lemma extend_app tracks its :
  extend tracks its = tracks ++ descriptors its.
Proof.
  revert tracks. induction its as [|it its IH]; intros tracks; simpl.
  - by rewrite app_nil_r.
  - unfold descriptors. simpl. destruct (descriptor it) as [t|].
    + rewrite IH. by rewrite <- app_assoc.
    + apply IH.
Qed.

Lemma descriptors_take_page limit offset (coll : list raw_item) :
  descriptors (take offset coll)
    ++ descriptors (take limit (drop offset coll))
  = descriptors (take (offset + limit) coll).
Proof.
  unfold descriptors. by rewrite <- omap_app, take_take_drop.
Qed.

Lemma descriptors_length_all_valid (coll : list raw_item) :
  Forall (λ it, is_Some (descriptor it)) coll →
  length (descriptors coll) = length coll.
Proof.
  induction 1 as [|it coll [t Ht] _ IH]; [done|].
  unfold descriptors in *. simpl. rewrite Ht. simpl. by f_equal.
Qed.

(** The playlist branch, from any page boundary on. *)
Lemma pages_loop_playlist fuel sp pid offset :
  0 < playlist_limit sp →
  length (playlist_items sp pid) - offset < fuel →
  pages_loop fuel sp pid false (playlist_tracks sp pid offset)
    (descriptors (take offset (playlist_items sp pid)))
  = Some (descriptors (playlist_items sp pid)).
Proof.
  intros Hlimit. revert offset.
  induction fuel as [|fuel IH]; intros offset Hfuel; [lia|].
  simpl. rewrite extend_app, descriptors_take_page.
  case_decide as Hnext.
  - apply IH. lia.
  - by rewrite take_ge by lia.
Qed.

(** The liked-songs branch when no item of the library is skipped. *)
Lemma pages_loop_liked_all_valid fuel sp pid offset :
  0 < saved_limit sp →
  Forall (λ it, is_Some (descriptor it)) (saved_items sp) →
  length (saved_items sp) - offset < fuel →
  pages_loop fuel sp pid true (current_user_saved_tracks sp offset)
    (descriptors (take offset (saved_items sp)))
  = Some (descriptors (saved_items sp)).
Proof.
  intros Hlimit Hvalid. revert offset.
  induction fuel as [|fuel IH]; intros offset Hfuel; [lia|].
  simpl. rewrite extend_app, descriptors_take_page.
  case_decide as Hnext.
  - rewrite descriptors_length_all_valid by by apply Forall_take.
    rewrite length_take, Nat.min_l by lia.
    apply IH. lia.
  - by rewrite take_ge by lia.
Qed.

End ExtractorFacts.

(** X2.  For a playlist the extraction returns, in source order, exactly
    the descriptors of the items that have the required fields, whatever
    items are skipped, as soon as the fuel covers the pages. *)
Theorem playlist_extraction (fuel : nat) (sp : Extractor.spotify)
    (pid : string) :
  0 < Extractor.playlist_limit sp →
  length (Extractor.playlist_items sp pid) < fuel →
  Extractor.get_spotify_tracks fuel sp pid false
  = Some (Extractor.descriptors (Extractor.playlist_items sp pid)).
Proof.
  intros Hlimit Hfuel. unfold Extractor.get_spotify_tracks.
  apply (pages_loop_playlist fuel sp pid 0 Hlimit). lia.
Qed.

(** X3.  For the liked songs the extraction returns the descriptors of
    all items, in source order, when no item is skipped. *)
Theorem liked_extraction_without_skips (fuel : nat) (sp : Extractor.spotify)
    (pid : string) :
  0 < Extractor.saved_limit sp →
  Forall (λ it, is_Some (Extractor.descriptor it)) (Extractor.saved_items sp) →
  length (Extractor.saved_items sp) < fuel →
  Extractor.get_spotify_tracks fuel sp pid true
  = Some (Extractor.descriptors (Extractor.saved_items sp)).
Proof.
  intros Hlimit Hvalid Hfuel. unfold Extractor.get_spotify_tracks.
  apply (pages_loop_liked_all_valid fuel sp pid 0 Hlimit Hvalid). lia.
Qed.

(** C7: the liked-songs branch asks for the next page at offset
    [len(tracks)], the number of tracks kept so far, not the number of
    items read.  With a library of twenty-one items served twenty per
    page whose first item has no track, the second request starts one
    item too early: the extraction returns twenty-one descriptors where
    the library has twenty usable items, and "s19" comes out twice.  The
    playlist branch on the same collection returns the twenty. *)
Theorem C7_liked_songs_skip_shifts_offset :
  Extractor.get_spotify_tracks 3 Examples.sp_library21 "" true
  = Some (Extractor.descriptors (take 20 Examples.library21)
            ++ Extractor.descriptors (drop 19 Examples.library21))
  ∧ Extractor.get_spotify_tracks 3 Examples.sp_library21 "" true
    ≠ Some (Extractor.descriptors Examples.library21)
  ∧ (map name <$> Extractor.get_spotify_tracks 3 Examples.sp_library21 "" true)
    = Some ["s01"; "s02"; "s03"; "s04"; "s05"; "s06"; "s07"; "s08"; "s09";
            "s10"; "s11"; "s12"; "s13"; "s14"; "s15"; "s16"; "s17"; "s18";
            "s19"; "s19"; "s20"]
  ∧ Extractor.get_spotify_tracks 3 Examples.sp_library21 "PL" false
    = Some (Extractor.descriptors Examples.library21)
  ∧ (∀ fuel, Extractor.get_spotify_tracks fuel Examples.sp_stuck "" true
             = None).
Proof.
  split; [vm_compute; reflexivity|].
  split; [vm_compute; discriminate|].
  split; [vm_compute; reflexivity|].
  split; [vm_compute; reflexivity|].
  intros fuel. unfold Extractor.get_spotify_tracks. simpl.
  change (Extractor.current_user_saved_tracks Examples.sp_stuck 0)
    with (Extractor.Page [Examples.null_item; Examples.null_item] (Some 2)).
  induction fuel as [|fuel IH]; [done|]. simpl. exact IH.
Qed.

(** ** TransferEngine: single tracks *)

Arguments Engine.quota_exceeded : simpl never.
Arguments Engine.query_of : simpl never.
Arguments Store.save_progress : simpl never.
Arguments Engine.attempt : simpl never.
Arguments Engine.handle : simpl never.

(** Reduces the projections of updated states, and nothing else. *)
Ltac project_with p :=
  repeat match goal with
  | |- context [p ?x] =>
      let y := eval cbn [Engine.processed Engine.remaining Engine.fs
                         Engine.searches Engine.appends Engine.trace
                         Engine.snapshots Engine.emit Engine.set_fs
                         Engine.add_processed Engine.set_remaining
                         Engine.count_search Engine.count_append
                         Engine.snapshot Engine.print Engine.sleep
                         Engine.save Engine.init_state] in (p x) in
      progress change (p x) with y
  end.

Tactic Notation "project_state" "in" hyp(H) :=
  cbn [Engine.processed Engine.remaining Engine.fs Engine.searches
       Engine.appends Engine.trace Engine.snapshots Engine.emit
       Engine.set_fs Engine.add_processed Engine.set_remaining
       Engine.count_search Engine.count_append Engine.snapshot
       Engine.print Engine.sleep Engine.save Engine.init_state] in H.

Ltac project_state :=
  project_with Engine.processed; project_with Engine.remaining;
  project_with Engine.fs; project_with Engine.searches;
  project_with Engine.appends; project_with Engine.trace;
  project_with Engine.snapshots.

Section TrackFacts.

Import Engine.
Variables (yt : youtube) (pid : string) (max_retries delay : nat).

Lemma since_app (s s' : state) evs :
  trace s' = trace s ++ evs → Obs.since s s' = evs.
Proof. intros H. unfold Obs.since. rewrite H. apply drop_app_length. Qed.

Lemma list_remove_head t l : list_remove t (t :: l) = Some l.
Proof. simpl. by rewrite decide_True. Qed.

(** A search without hits ends the [while] loop at once. *)
Lemma attempt_not_found t retry_count s :
  search_list yt (searches s) (query_of t) = Ok [] →
  ∃ s', attempt yt pid max_retries delay t retry_count s = (Break, s')
        ∧ processed s' = processed s
        ∧ remaining s' = remaining s
        ∧ fs s' = fs s
        ∧ searches s' = S (searches s)
        ∧ appends s' = appends s
        ∧ snapshots s' = snapshots s
        ∧ trace s' = trace s ++ [ESearch (query_of t);
                                 EPrint (MsgNoResults (name t))].
Proof.
  intros H. unfold attempt, do_search. rewrite H.
  eexists. split; [reflexivity|]. project_state.
  by rewrite <- app_assoc.
Qed.

(** An append refused for a reason other than the quota uses up one
    attempt; a pause of [delay * 2] follows unless it was the last. *)
Lemma attempt_refused t retry_count s vid rest msg :
  search_list yt (searches s) (query_of t) = Ok (Some vid :: rest) →
  playlist_items_insert yt (appends s) pid vid = Raise (HttpError msg) →
  quota_exceeded msg = false →
  ∃ s', attempt yt pid max_retries delay t retry_count s
        = (Again (S retry_count), s')
        ∧ processed s' = processed s
        ∧ remaining s' = remaining s
        ∧ fs s' = fs s
        ∧ searches s' = S (searches s)
        ∧ appends s' = S (appends s)
        ∧ snapshots s' = snapshots s
        ∧ trace s' = trace s ++
            [ESearch (query_of t); EAppend pid vid] ++
            (if decide (S retry_count = max_retries)
             then [EPrint (MsgFailed (name t) max_retries msg)]
             else [EPrint (MsgRetrying (S retry_count) (name t));
                   ESleep (delay * 2)]).
Proof.
  intros Hs Ha Hq. unfold attempt, do_search. rewrite Hs.
  unfold do_append. project_state. rewrite Ha.
  unfold handle. rewrite Hq.
  case_decide; eexists; (split; [reflexivity|]); project_state;
    by rewrite <- !app_assoc.
Qed.

(** A successful append. *)
Lemma attempt_added t retry_count s vid rest rem' :
  search_list yt (searches s) (query_of t) = Ok (Some vid :: rest) →
  playlist_items_insert yt (appends s) pid vid = Ok () →
  list_remove t (remaining s) = Some rem' →
  ∃ s', attempt yt pid max_retries delay t retry_count s = (Break, s')
        ∧ processed s' = processed s ++ [name t]
        ∧ remaining s' = rem'
        ∧ fs s' = Store.save_progress pid (processed s ++ [name t]) rem'
                    (fs s)
        ∧ searches s' = S (searches s)
        ∧ appends s' = S (appends s)
        ∧ snapshots s' = snapshots s
        ∧ trace s' = trace s ++
            [ESearch (query_of t); EAppend pid vid;
             EPrint (MsgAdded (name t));
             ESave (Progress pid (processed s ++ [name t]) rem');
             ESleep delay].
Proof.
  intros Hs Ha Hr. unfold attempt, do_search. rewrite Hs.
  unfold do_append. project_state. rewrite Ha.
  cbv zeta. project_state. rewrite Hr.
  eexists; (split; [reflexivity|]); project_state.
  by rewrite <- !app_assoc.
Qed.

(** A request refused because the quota is used up: the state is saved
    and the function returns. *)
Lemma attempt_quota_on_append t retry_count s vid rest msg :
  search_list yt (searches s) (query_of t) = Ok (Some vid :: rest) →
  playlist_items_insert yt (appends s) pid vid = Raise (HttpError msg) →
  quota_exceeded msg = true →
  ∃ s', attempt yt pid max_retries delay t retry_count s = (Return, s')
        ∧ processed s' = processed s
        ∧ remaining s' = remaining s
        ∧ fs s' = Store.save_progress pid (processed s) (remaining s) (fs s)
        ∧ searches s' = S (searches s)
        ∧ appends s' = S (appends s)
        ∧ snapshots s' = snapshots s
        ∧ trace s' = trace s ++
            [ESearch (query_of t); EAppend pid vid;
             EPrint (MsgQuotaExceeded (length (processed s)));
             ESave (Progress pid (processed s) (remaining s))].
Proof.
  intros Hs Ha Hq. unfold attempt, do_search. rewrite Hs.
  unfold do_append. project_state. rewrite Ha.
  unfold handle. rewrite Hq.
  eexists; (split; [reflexivity|]); project_state.
  by rewrite <- !app_assoc.
Qed.

End TrackFacts.

Section RetryFacts.

Import Engine.
Variables (yt : youtube) (pid : string) (max_retries delay : nat).

Lemma while_loop_snapshot_not_found left t retry_count s :
  search_list yt (searches s) (query_of t) = Ok [] →
  ∃ s', while_loop (S left) yt pid max_retries delay t retry_count s
        = (NextTrack, s')
        ∧ processed s' = processed s
        ∧ remaining s' = remaining s
        ∧ fs s' = fs s
        ∧ searches s' = S (searches s)
        ∧ appends s' = appends s
        ∧ trace s' = trace s ++ [ESearch (query_of t);
                                 EPrint (MsgNoResults (name t))].
Proof.
  intros H.
  destruct (attempt_not_found yt pid max_retries delay t retry_count s H)
    as (s1 & E & ? & ? & ? & ? & ? & ? & ?).
  simpl. rewrite E. eexists. split; [done|]. by simpl.
Qed.

(** Appends that are refused, for a reason other than the quota, on every
    attempt that is left: the loop makes [left] attempts, pauses
    [delay * 2] after each but the last, and changes neither list nor the
    file. *)
Lemma while_loop_exhaust left t retry_count s :
  retry_count + left = max_retries →
  (∀ i, i < left →
     ∃ vid rest,
       search_list yt (searches s + i) (query_of t) = Ok (Some vid :: rest)) →
  (∀ i vid, i < left →
     ∃ msg, playlist_items_insert yt (appends s + i) pid vid
            = Raise (HttpError msg)
            ∧ quota_exceeded msg = false) →
  ∃ s' evs,
    while_loop left yt pid max_retries delay t retry_count s = (NextTrack, s')
    ∧ trace s' = trace s ++ evs
    ∧ length (Obs.append_calls evs) = left
    ∧ length (Obs.search_calls evs) = left
    ∧ Obs.waits evs = replicate (left - 1) (delay * 2)
    ∧ Obs.saves evs = []
    ∧ processed s' = processed s
    ∧ remaining s' = remaining s
    ∧ fs s' = fs s
    ∧ appends s' = appends s + left.
Proof.
  revert retry_count s.
  induction left as [|left IH]; intros retry_count s Hsum Hsearch Happend.
  - exists s, []. simpl. rewrite app_nil_r.
    repeat split; try done; lia.
  - destruct (Hsearch 0 ltac:(lia)) as (vid & rest & Hs).
    destruct (Happend 0 vid ltac:(lia)) as (msg & Ha & Hq).
    rewrite Nat.add_0_r in Hs, Ha.
    destruct (attempt_refused yt pid max_retries delay t retry_count s
                vid rest msg Hs Ha Hq)
      as (s1 & E & Hp1 & Hr1 & Hf1 & Hs1 & Ha1 & _ & Ht1).
    simpl. rewrite E.
    destruct (IH (S retry_count) (snapshot s1)) as
      (s' & evs & E' & Ht' & Hac & Hsc & Hw & Hsv & Hp' & Hr' & Hf' & Ha').
    + lia.
    + intros i Hi. simpl. rewrite Hs1.
      destruct (Hsearch (S i) ltac:(lia)) as (v & r & Hv).
      exists v, r. rewrite <- Hv. f_equal. lia.
    + intros i v Hi. simpl. rewrite Ha1.
      destruct (Happend (S i) v ltac:(lia)) as (m & Hm & Hmq).
      exists m. split; [|done]. rewrite <- Hm. f_equal. lia.
    + exists s'. eexists. split; [exact E'|].
      simpl in *. rewrite Ht', Ht1, <- app_assoc.
      split; [reflexivity|].
      rewrite Hp', Hr', Hf', Ha', Hp1, Hr1, Hf1, Ha1.
      unfold Obs.append_calls, Obs.search_calls, Obs.waits, Obs.saves in *.
      rewrite !omap_app, !length_app, Hac, Hsc, Hw, Hsv.
      case_decide as Hlast; simpl.
      * assert (left = 0) as -> by lia. repeat split; try done; lia.
      * destruct left as [|left]; [lia|]. simpl.
        rewrite Nat.sub_0_r. repeat split; try done; lia.
Qed.

End RetryFacts.

(** C1, as stated, fails: after a run over one track that the search does
    not find, nothing was appended and nothing was processed, but the
    track is still in [remaining]. *)
Lemma C1_counterexample :
  ∃ s, Engine.search_and_add_to_playlist Examples.yt_nothing "PL"
         [Examples.song_a] 3 2 Examples.no_files
       = (Engine.Finished, Some s)
       ∧ Obs.append_calls (Engine.trace s) = []
       ∧ Engine.processed s = []
       ∧ Engine.remaining s = [Examples.song_a]
       ∧ ¬ (Examples.song_a ∉ Engine.remaining s).
Proof.
  eexists. split; [vm_compute; reflexivity|].
  repeat split; try reflexivity.
  intros H. apply H. simpl. left.
Qed.

(** C1, amended.  For every track whose search returns no hit, the loop
    of that track ends after that one search: no append is requested,
    nothing is saved, no pause is made, no attempt is counted (the
    attempt ends in a [break] whatever the retry count), and [processed]
    is unchanged.  The track is not taken out of [remaining]: that list
    and the progress file are as they were before. *)
Theorem C1_not_found_skip :
  ∀ (yt : youtube) (pid : string) (max_retries delay : nat) (t : track)
    (s : Engine.state),
    0 < max_retries →
    search_list yt (Engine.searches s) (Engine.query_of t) = Ok [] →
    ∃ s',
      Engine.while_loop max_retries yt pid max_retries delay t 0 s
      = (Engine.NextTrack, s')
      ∧ Obs.search_calls (Obs.since s s') = [Engine.query_of t]
      ∧ Obs.append_calls (Obs.since s s') = []
      ∧ Obs.waits (Obs.since s s') = []
      ∧ Obs.saves (Obs.since s s') = []
      ∧ Engine.appends s' = Engine.appends s
      ∧ (∀ retry_count,
           (Engine.attempt yt pid max_retries delay t retry_count s).1
           = Engine.Break)
      ∧ Engine.processed s' = Engine.processed s
      ∧ Engine.remaining s' = Engine.remaining s
      ∧ Engine.fs s' = Engine.fs s.
Proof.
  intros yt pid max_retries delay t s Hpos Hsearch.
  destruct max_retries as [|left]; [lia|].
  destruct (while_loop_snapshot_not_found yt pid (S left) delay left t 0 s
              Hsearch) as (s' & E & Hp & Hr & Hf & _ & Ha & Ht).
  exists s'. split; [exact E|].
  rewrite (since_app s s' _ Ht).
  repeat split; try done.
  intros retry_count.
  destruct (attempt_not_found yt pid (S left) delay t retry_count s
              Hsearch) as (s1 & E1 & _).
  by rewrite E1.
Qed.

Lemma C1_not_found_skip_witness :
  ∃ s',
    Engine.while_loop 3 Examples.yt_nothing "PL" 3 2 Examples.song_a 0
      (Engine.init_state [] [Examples.song_a] Examples.no_files [])
    = (Engine.NextTrack, s')
    ∧ Engine.remaining s' = [Examples.song_a].
Proof.
  destruct (C1_not_found_skip Examples.yt_nothing "PL" 3 2 Examples.song_a
              (Engine.init_state [] [Examples.song_a] Examples.no_files []))
    as (s' & E & _ & _ & _ & _ & _ & _ & _ & Hr & _).
  - lia.
  - reflexivity.
  - exists s'. split; [exact E|exact Hr].
Defined.

(** C2, as stated, fails: with the defaults, a track whose appends are
    always refused is tried three times, but the two pauses between the
    attempts are 4 and 4 (not 2 and 4), and after the run the track is
    still in [remaining]. *)
Lemma C2_counterexample :
  ∃ s, Engine.search_and_add_to_playlist Examples.yt_failing "PL"
         [Examples.song_a] Engine.default_max_retries Engine.default_delay
         Examples.no_files
       = (Engine.Finished, Some s)
       ∧ length (Obs.append_calls (Engine.trace s)) = 3
       ∧ Obs.waits (Engine.trace s) = [4; 4]
       ∧ Obs.waits (Engine.trace s) ≠ [2; 4]
       ∧ ("a" ∉ Engine.processed s)
       ∧ ¬ (Examples.song_a ∉ Engine.remaining s).
Proof.
  eexists. split; [vm_compute; reflexivity|].
  repeat split; try reflexivity.
  - simpl. discriminate.
  - simpl. apply not_elem_of_nil.
  - intros H. apply H. simpl. left.
Qed.

(** C2, amended.  For every track whose append is refused with an error
    other than quota exhaustion on all attempts (max_retries = 3,
    delay = 2), exactly 3 append attempts are made for the track, with a
    pause of 4 time-units ([delay * 2]) after the first and after the
    second; nothing is saved, [processed] does not receive the name, and
    the track is not taken out of [remaining], which is unchanged. *)
Theorem C2_retry_exhaustion :
  ∀ (yt : youtube) (pid : string) (t : track) (s : Engine.state),
    (∀ i, i < 3 →
       ∃ vid rest,
         search_list yt (Engine.searches s + i) (Engine.query_of t)
         = Ok (Some vid :: rest)) →
    (∀ i vid, i < 3 →
       ∃ msg, playlist_items_insert yt (Engine.appends s + i) pid vid
              = Raise (HttpError msg)
              ∧ Engine.quota_exceeded msg = false) →
    ∃ s',
      Engine.while_loop Engine.default_max_retries yt pid
        Engine.default_max_retries Engine.default_delay t 0 s
      = (Engine.NextTrack, s')
      ∧ length (Obs.append_calls (Obs.since s s')) = 3
      ∧ Obs.waits (Obs.since s s') = [4; 4]
      ∧ Obs.saves (Obs.since s s') = []
      ∧ Engine.processed s' = Engine.processed s
      ∧ Engine.remaining s' = Engine.remaining s
      ∧ Engine.fs s' = Engine.fs s.
Proof.
  intros yt pid t s Hsearch Happend.
  destruct (while_loop_exhaust yt pid 3 2 3 t 0 s eq_refl Hsearch Happend)
    as (s' & evs & E & Ht & Hac & _ & Hw & Hsv & Hp & Hr & Hf & _).
  exists s'. split; [exact E|].
  rewrite (since_app s s' _ Ht). by repeat split.
Qed.

Lemma C2_retry_exhaustion_witness :
  ∃ s',
    Engine.while_loop 3 Examples.yt_failing "PL" 3 2 Examples.song_a 0
      (Engine.init_state [] [Examples.song_a] Examples.no_files [])
    = (Engine.NextTrack, s')
    ∧ Obs.waits
        (Obs.since
           (Engine.init_state [] [Examples.song_a] Examples.no_files []) s')
      = [4; 4]
    ∧ Engine.remaining s' = [Examples.song_a].
Proof.
  destruct (C2_retry_exhaustion Examples.yt_failing "PL" Examples.song_a
              (Engine.init_state [] [Examples.song_a] Examples.no_files []))
    as (s' & E & _ & Hw & _ & _ & Hr & _).
  - intros i Hi. eexists _, _. reflexivity.
  - intros i vid Hi. eexists. split; reflexivity.
  - exists s'. split; [exact E|]. split; [exact Hw|exact Hr].
Defined.

(** ** TransferEngine: whole runs *)

Section LoopFacts.

Import Engine.
Variables (yt : youtube) (pid : string) (max_retries delay : nat).

Lemma for_loop_app pre post s :
  for_loop yt pid max_retries delay (pre ++ post) s
  = match for_loop yt pid max_retries delay pre s with
    | (Stop, s') => (Stop, s')
    | (NextTrack, s') => for_loop yt pid max_retries delay post s'
    end.
Proof.
  revert s. induction pre as [|t pre IH]; intros s; simpl; [done|].
  destruct (while_loop max_retries yt pid max_retries delay t 0 s)
    as [[] s']; [apply IH|done].
Qed.

(** A prefix of tracks that are all found and appended moves from
    [remaining] to [processed], in order. *)
Lemma for_loop_all_added pre :
  ∀ s post,
    0 < max_retries →
    remaining s = pre ++ post →
    (∀ i q, i < length pre →
       ∃ vid rest, search_list yt (searches s + i) q = Ok (Some vid :: rest)) →
    (∀ i vid, i < length pre →
       playlist_items_insert yt (appends s + i) pid vid = Ok ()) →
    ∃ s',
      for_loop yt pid max_retries delay pre s = (NextTrack, s')
      ∧ processed s' = processed s ++ map name pre
      ∧ remaining s' = post
      ∧ searches s' = searches s + length pre
      ∧ appends s' = appends s + length pre
      ∧ (pre ≠ [] →
         fs s' !! Store.progress_file
         = Some (Json (Progress pid (processed s') post))).
Proof.
  induction pre as [|t pre IH]; intros s post Hpos Hrem Hsearch Happend.
  - exists s. simpl in *. rewrite app_nil_r.
    repeat split; try done; lia.
  - destruct max_retries as [|left] eqn:Hmax; [lia|].
    destruct (Hsearch 0 (query_of t) ltac:(simpl; lia)) as (vid & rest & Hs).
    pose proof (Happend 0 vid ltac:(simpl; lia)) as Ha.
    rewrite Nat.add_0_r in Hs, Ha.
    assert (list_remove t (remaining s) = Some (pre ++ post)) as Hr
      by (rewrite Hrem; apply list_remove_head).
    destruct (attempt_added yt pid (S left) delay t 0 s vid rest _ Hs Ha Hr)
      as (s1 & E & Hp1 & Hr1 & Hf1 & Hs1 & Ha1 & _ & _).
    destruct (IH (snapshot s1) post) as (s' & E' & Hp' & Hr' & Hs' & Ha' & Hf').
    + lia.
    + exact Hr1.
    + intros i q Hi. simpl. rewrite Hs1.
      destruct (Hsearch (S i) q ltac:(simpl; lia)) as (v & r & Hv).
      exists v, r. rewrite <- Hv. f_equal. lia.
    + intros i v Hi. simpl. rewrite Ha1.
      rewrite <- (Happend (S i) v ltac:(simpl; lia)). f_equal. lia.
    + exists s'. cbn [for_loop while_loop]. rewrite E.
      split; [exact E'|].
      project_state in Hp'. project_state in Hs'. project_state in Ha'.
      rewrite Hp', Hp1, Hs', Hs1, Ha', Ha1, <- app_assoc.
      cbn [map length app].
      repeat split; try done; try lia.
      intros _. destruct pre as [|t' pre'].
      * cbn [for_loop] in E'. injection E' as <-. project_state.
        rewrite Hf1, save_progress_insert, lookup_insert_eq. done.
      * rewrite Hf' by done. by rewrite Hp', Hp1, <- app_assoc.
Qed.

(** When the append of the first remaining track hits the quota, the
    function saves the two lists as they are and returns. *)
Lemma for_loop_quota t copy s vid rest msg :
  0 < max_retries →
  search_list yt (searches s) (query_of t) = Ok (Some vid :: rest) →
  playlist_items_insert yt (appends s) pid vid = Raise (HttpError msg) →
  quota_exceeded msg = true →
  ∃ s',
    for_loop yt pid max_retries delay (t :: copy) s = (Stop, s')
    ∧ processed s' = processed s
    ∧ remaining s' = remaining s
    ∧ fs s' !! Store.progress_file
      = Some (Json (Progress pid (processed s) (remaining s)))
    ∧ Obs.append_calls (Obs.since s s') = [(pid, vid)].
Proof.
  intros Hpos Hs Ha Hq.
  destruct max_retries as [|left] eqn:Hmax; [lia|].
  destruct (attempt_quota_on_append yt pid (S left) delay t 0 s vid rest msg
              Hs Ha Hq)
    as (s1 & E & Hp1 & Hr1 & Hf1 & _ & _ & _ & Ht1).
  exists (snapshot s1). simpl. rewrite E. simpl.
  rewrite Hf1, save_progress_insert, lookup_insert_eq.
  repeat split; try done.
  unfold Obs.since. simpl. rewrite Ht1, drop_app_length. done.
Qed.

End LoopFacts.

Lemma start_fresh pid tracks (files : gmap string file_content) :
  Store.load_progress files = Ok None
  ∨ (∃ p, Store.load_progress files = Ok (Some p) ∧ playlist_id p ≠ pid) →
  Engine.start pid tracks files = Ok (Engine.init_state [] tracks files []).
Proof.
  unfold Engine.start. intros [-> | (p & -> & Hne)]; [done|].
  by rewrite decide_False.
Qed.

(** C3.  A run that starts fresh over 5 tracks, in which every search
    finds a video, the first two appends succeed and the third append
    is refused for quota exhaustion, returns normally at the quota stop
    with [processed] the names of the first 2 tracks and [remaining] the
    last 3 tracks, the refused one first; the progress file then holds
    exactly that split. *)
Theorem C3_quota_stop :
  ∀ (yt : youtube) (pid : string) (tracks : list track)
    (max_retries delay : nat) (files : gmap string file_content),
    length tracks = 5 →
    0 < max_retries →
    (Store.load_progress files = Ok None
     ∨ (∃ p, Store.load_progress files = Ok (Some p) ∧ playlist_id p ≠ pid)) →
    (∀ i q, i < 3 →
       ∃ vid rest, search_list yt i q = Ok (Some vid :: rest)) →
    (∀ i vid, i < 2 → playlist_items_insert yt i pid vid = Ok ()) →
    (∀ vid, ∃ msg, playlist_items_insert yt 2 pid vid = Raise (HttpError msg)
                   ∧ Engine.quota_exceeded msg = true) →
    ∃ s,
      Engine.search_and_add_to_playlist yt pid tracks max_retries delay files
      = (Engine.QuotaStop, Some s)
      ∧ Engine.processed s = map name (take 2 tracks)
      ∧ Engine.remaining s = drop 2 tracks
      ∧ length (Engine.remaining s) = 3
      ∧ Engine.fs s !! Store.progress_file
        = Some (Json (Progress pid (map name (take 2 tracks))
                        (drop 2 tracks)))
      ∧ Store.load_progress (Engine.fs s)
        = Ok (Some (Progress pid (map name (take 2 tracks)) (drop 2 tracks))).
Proof.
  intros yt pid tracks max_retries delay files Hlen Hpos Hfresh
    Hsearch Hok Hquota.
  destruct tracks as [|t1 [|t2 [|t3 [|t4 [|t5 [|]]]]]]; try discriminate.
  unfold Engine.search_and_add_to_playlist.
  rewrite (start_fresh pid _ files Hfresh).
  set (s0 := Engine.init_state [] [t1; t2; t3; t4; t5] files []).
  change (Engine.remaining s0) with ([t1; t2] ++ [t3; t4; t5]).
  rewrite for_loop_app.
  destruct (for_loop_all_added yt pid max_retries delay [t1; t2] s0
              [t3; t4; t5]) as (s1 & E1 & Hp1 & Hr1 & Hs1 & Ha1 & _).
  - exact Hpos.
  - reflexivity.
  - intros i q Hi. simpl in *. apply Hsearch. lia.
  - intros i vid Hi. simpl in *. apply Hok. lia.
  - rewrite E1.
    destruct (Hsearch 2 (Engine.query_of t3) ltac:(lia)) as (vid & rest & Hs).
    destruct (Hquota vid) as (msg & Ha & Hq).
    destruct (for_loop_quota yt pid max_retries delay t3 [t4; t5] s1
                vid rest msg Hpos)
      as (s & E & Hp & Hr & Hf & _).
    + by rewrite Hs1.
    + by rewrite Ha1.
    + exact Hq.
    + exists s. rewrite E. split; [done|].
      rewrite Hp, Hr, Hp1, Hr1. simpl.
      repeat split; try done.
      * rewrite Hf, Hp1, Hr1. done.
      * unfold Store.load_progress. rewrite Hf, Hp1, Hr1. done.
Qed.

Lemma C3_quota_stop_witness :
  ∃ s,
    Engine.search_and_add_to_playlist Examples.yt_quota "PL" Examples.five
      3 2 Examples.no_files
    = (Engine.QuotaStop, Some s)
    ∧ Engine.processed s = ["a"; "b"]
    ∧ Engine.remaining s
      = [Examples.song_c; Examples.song_d; Examples.song_e].
Proof.
  destruct (C3_quota_stop Examples.yt_quota "PL" Examples.five 3 2
              Examples.no_files)
    as (s & E & Hp & Hr & _).
  - reflexivity.
  - lia.
  - left. reflexivity.
  - intros i q Hi. eexists _, _. reflexivity.
  - intros i vid Hi. simpl. rewrite decide_False by lia. reflexivity.
  - intros vid. eexists. split; reflexivity.
  - exists s. split; [exact E|]. split; [exact Hp|exact Hr].
Defined.

(** ** TransferEngine: what every attempt does *)

Section EffectFacts.

Import Engine.
Variables (yt : youtube) (pid : string) (max_retries delay : nat).

Ltac solve_effect :=
  project_state; rewrite <- ?app_assoc; first [reflexivity | done].

Lemma handle_effect t retry_count e s c s' :
  handle pid max_retries delay t retry_count e s = (c, s') →
  Obs.attempt_effect pid t s s' c.
Proof.
  unfold handle. destruct e as [msg| | | |];
    try (intros [= <- <-]; eapply Obs.Kept; cycle 4; solve_effect).
  destruct (quota_exceeded msg).
  - intros [= <- <-]. eapply Obs.Halted; cycle 3; solve_effect.
  - case_decide; intros [= <- <-]; eapply Obs.Kept; cycle 4; solve_effect.
Qed.

(** Effects compose with a prefix that changed neither list nor the
    file. *)
Lemma effect_after_kept t s s1 s' c evs1 :
  processed s1 = processed s →
  remaining s1 = remaining s →
  fs s1 = fs s →
  trace s1 = trace s ++ evs1 →
  Obs.saves evs1 = [] →
  Obs.unlinks evs1 = [] →
  snapshots s1 = snapshots s →
  Obs.attempt_effect pid t s1 s' c →
  Obs.attempt_effect pid t s s' c.
Proof.
  intros Hp Hr Hf Ht Hsv Hun Hsn H.
  destruct H as [c evs Hc Hp' Hr' Hf' Ht' Hsv' Hun' Hsn'
                | evs Hp' Hr' Hf' Ht' Hsv' Hun' Hsn'
                | rest evs Hrm Hp' Hr' Hf' Ht' Hsv' Hun' Hsn'
                | c Hrm].
  - apply (Obs.Kept pid t s s' c (evs1 ++ evs)); try congruence.
    + by rewrite Ht', Ht, app_assoc.
    + unfold Obs.saves in *. by rewrite omap_app, Hsv, Hsv'.
    + unfold Obs.unlinks in *. by rewrite omap_app, Hun, Hun'.
  - apply (Obs.Halted pid t s s' (evs1 ++ evs)); try congruence.
    + by rewrite Ht', Ht, app_assoc.
    + unfold Obs.saves in *. rewrite omap_app, Hsv, Hsv'. simpl.
      by rewrite ?Hp, ?Hr.
    + unfold Obs.unlinks in *. by rewrite omap_app, Hun, Hun'.
  - apply (Obs.Added pid t s s' rest (evs1 ++ evs)); try congruence.
    + by rewrite Ht', Ht, app_assoc.
    + unfold Obs.saves in *. rewrite omap_app, Hsv, Hsv'. simpl.
      by rewrite ?Hp, ?Hr.
    + unfold Obs.unlinks in *. by rewrite omap_app, Hun, Hun'.
  - apply Obs.Lost. congruence.
Qed.

Lemma attempt_cases t retry_count s c s' :
  attempt yt pid max_retries delay t retry_count s = (c, s') →
  Obs.attempt_effect pid t s s' c.
Proof.
  unfold attempt, do_search.
  destruct (search_list yt (searches s) (query_of t))
    as [[|[vid|] rest]|e].
  - intros [= <- <-]. eapply Obs.Kept; cycle 4; solve_effect.
  - unfold do_append. project_state.
    destruct (playlist_items_insert yt (appends s) pid vid) as [[]|e].
    + cbv zeta. project_state.
      destruct (list_remove t (remaining s)) as [rest'|] eqn:Hrm.
      * intros [= <- <-]. eapply Obs.Added; cycle 4; solve_effect.
      * intros _. by apply Obs.Lost.
    + intros H. apply handle_effect in H.
      eapply effect_after_kept; [..|exact H]; solve_effect.
  - intros H. apply handle_effect in H.
    eapply effect_after_kept; [..|exact H]; solve_effect.
  - intros H. apply handle_effect in H.
    eapply effect_after_kept; [..|exact H]; solve_effect.
Qed.

Lemma handle_again t retry_count e s retry_count' s' :
  handle pid max_retries delay t retry_count e s = (Again retry_count', s') →
  retry_count' = S retry_count.
Proof.
  unfold handle. destruct e as [msg| | | |]; try discriminate.
  destruct (quota_exceeded msg); [discriminate|].
  case_decide; by intros [= <- _].
Qed.

(** The only way back to the loop condition counts one attempt. *)
Lemma attempt_again t retry_count s retry_count' s' :
  attempt yt pid max_retries delay t retry_count s = (Again retry_count', s') →
  retry_count' = S retry_count.
Proof.
  unfold attempt, do_search.
  destruct (search_list yt (searches s) (query_of t))
    as [[|[vid|] rest]|e]; try discriminate;
    try (by apply handle_again).
  unfold do_append. project_state.
  destruct (playlist_items_insert yt (appends s) pid vid) as [[]|e];
    [|by apply handle_again].
  cbv zeta. project_state.
  destruct (list_remove t (remaining s)); [discriminate|].
  by apply handle_again.
Qed.

(** The loop on the attempts that are left is the loop of line 180: with
    the condition [retry_count < max_retries] tested on every pass, any
    bound above the number of attempts left gives the same result. *)
Lemma while_loop_guarded_eq left :
  ∀ fuel t retry_count s,
    retry_count + left = max_retries →
    left < fuel →
    while_loop_guarded fuel yt pid max_retries delay t retry_count s
    = Some (while_loop left yt pid max_retries delay t retry_count s).
Proof.
  induction left as [|left IH]; intros fuel t retry_count s Hsum Hfuel;
    (destruct fuel as [|fuel]; [lia|]); cbn [while_loop while_loop_guarded].
  - by rewrite decide_False by lia.
  - rewrite decide_True by lia.
    destruct (attempt yt pid max_retries delay t retry_count s)
      as [[|retry_count'|] s1] eqn:E; try done.
    apply attempt_again in E as ->. apply IH; lia.
Qed.

End EffectFacts.

(** ** TransferEngine: the invariant of a run *)

Section InvariantFacts.

Import Engine.
Variables (yt : youtube) (pid : string) (max_retries delay : nat).
Variables (first : list string * list track).
Variables (files0 : gmap string file_content).

Lemma list_remove_Some_perm t l rest :
  list_remove t l = Some rest → l ≡ₚ t :: rest.
Proof.
  revert rest. induction l as [|x l IH]; intros rest; simpl; [done|].
  case_decide as Hx.
  - intros [= <-]. by subst.
  - destruct (list_remove t l) as [r|]; [|done].
    intros [= <-]. rewrite (IH r eq_refl). apply Permutation_swap.
Qed.

Lemma list_remove_None_notin t l : list_remove t l = None → t ∉ l.
Proof.
  induction l as [|x l IH]; simpl; [intros _; apply not_elem_of_nil|].
  case_decide as Hx; [done|].
  destruct (list_remove t l) as [r|]; [done|].
  intros _. apply not_elem_of_cons. split; [congruence|by apply IH].
Qed.

Lemma chain_snoc R (l : list (list string * list track)) a b :
  Obs.chain R l → last l = Some a → R a b → Obs.chain R (l ++ [b]).
Proof.
  induction l as [|x l IH]; [done|].
  destruct l as [|y l].
  - simpl. intros _ [= ->] HR. done.
  - intros [Hxy Hc] Hl HR. split; [exact Hxy|].
    apply IH; [exact Hc| |exact HR]. by rewrite last_cons_cons in Hl.
Qed.

Lemma names_of_moved processed rem t rest :
  rem ≡ₚ t :: rest →
  Obs.names_of (processed ++ [name t], rest)
  ≡ₚ Obs.names_of (processed, rem).
Proof.
  intros H. unfold Obs.names_of. simpl. rewrite H. simpl.
  rewrite <- app_assoc. simpl. done.
Qed.

Lemma last_saves_app tr evs :
  Obs.saves evs = [] → last (Obs.saves (tr ++ evs)) = last (Obs.saves tr).
Proof.
  intros H. unfold Obs.saves in *. by rewrite omap_app, H, app_nil_r.
Qed.

Lemma last_saves_app_one tr evs p :
  Obs.saves evs = [p] → last (Obs.saves (tr ++ evs)) = Some p.
Proof.
  intros H. unfold Obs.saves in *. by rewrite omap_app, H, last_snoc.
Qed.

Lemma unlinks_app tr evs :
  Obs.unlinks tr = [] → Obs.unlinks evs = [] → Obs.unlinks (tr ++ evs) = [].
Proof.
  intros H1 H2. unfold Obs.unlinks in *. by rewrite omap_app, H1, H2.
Qed.

(** One attempt on the first track of the rest of the copy keeps the
    invariant, and the rest of the copy stays inside [remaining]. *)
Lemma effect_preserves_inv t copy s s' c :
  Obs.run_inv first files0 s →
  t :: copy ⊆+ remaining s →
  Obs.attempt_effect pid t s s' c →
  Obs.run_inv first files0 (snapshot s')
  ∧ (c = Break → copy ⊆+ remaining s')
  ∧ (c ≠ Break → t :: copy ⊆+ remaining s')
  ∧ (c = Return →
     last (Obs.saves (trace s'))
     = Some (Progress pid (processed s') (remaining s'))).
Proof.
  intros [Hhead Hlast Hnames Hchain Hun Hfile] Hcopy Heff.
  assert (∀ sn, head (snapshots s ++ [sn]) = Some first) as Hfirst'.
  { intros sn. apply head_app_Some. by left. }
  assert (Obs.names_of (processed s, remaining s) ≡ₚ Obs.names_of first)
    as Hnow.
  { apply last_Some_elem_of in Hlast.
    by apply (proj1 (Forall_forall _ _) Hnames) in Hlast. }
  assert (copy ⊆+ remaining s) as Hcopy'.
  { etrans; [|exact Hcopy]. by apply submseteq_cons. }
  destruct Heff as [c evs Hc Hp' Hr' Hf' Ht' Hsv' Hun' Hsn'
                   | evs Hp' Hr' Hf' Ht' Hsv' Hun' Hsn'
                   | rest evs Hrm Hp' Hr' Hf' Ht' Hsv' Hun' Hsn'
                   | c Hrm].
  - split; [|by rewrite Hr'].
    split; project_state; rewrite ?Hsn', ?Hp', ?Hr', ?Ht'.
    + apply Hfirst'.
    + apply last_snoc.
    + apply Forall_app. split; [done|]. by apply Forall_singleton.
    + eapply chain_snoc; [done..|]. by left.
    + by apply unlinks_app.
    + unfold Obs.file_follows_saves in *. project_state.
      by rewrite Ht', Hf', last_saves_app.
  - split; [|rewrite Hr', Ht', Hp'; split; [done|split; [done|]];
             intros _; by apply last_saves_app_one].
    split; project_state; rewrite ?Hsn', ?Hp', ?Hr', ?Ht'.
    + apply Hfirst'.
    + apply last_snoc.
    + apply Forall_app. split; [done|]. by apply Forall_singleton.
    + eapply chain_snoc; [done..|]. by left.
    + by apply unlinks_app.
    + unfold Obs.file_follows_saves in *. project_state.
      rewrite Ht', Hf', (last_saves_app_one _ _ _ Hsv').
      by rewrite save_progress_insert, lookup_insert_eq.
  - pose proof (list_remove_Some_perm _ _ _ Hrm) as Hperm.
    split; [|split; [|done]].
    + split; project_state; rewrite ?Hsn', ?Hp', ?Hr', ?Ht'.
      * apply Hfirst'.
      * apply last_snoc.
      * apply Forall_app. split; [done|]. apply Forall_singleton.
        by rewrite (names_of_moved _ _ _ _ Hperm).
      * eapply chain_snoc; [done..|]. right. exists t.
        split; [|done]. simpl. rewrite Hperm. by left.
      * by apply unlinks_app.
      * unfold Obs.file_follows_saves in *. project_state.
        rewrite Ht', Hf', (last_saves_app_one _ _ _ Hsv').
        by rewrite save_progress_insert, lookup_insert_eq.
    + intros _. rewrite Hr'. rewrite Hperm in Hcopy.
      by apply (submseteq_app_inv_l _ _ [t]).
  - exfalso. apply (list_remove_None_notin _ _ Hrm).
    eapply elem_of_submseteq; [|exact Hcopy]. by left.
Qed.

Lemma while_loop_inv left t copy :
  ∀ retry_count s f s',
    Obs.run_inv first files0 s →
    t :: copy ⊆+ remaining s →
    while_loop left yt pid max_retries delay t retry_count s = (f, s') →
    Obs.run_inv first files0 s'
    ∧ (f = NextTrack → copy ⊆+ remaining s')
    ∧ (f = Stop →
       t :: copy ⊆+ remaining s'
       ∧ last (Obs.saves (trace s'))
         = Some (Progress pid (processed s') (remaining s'))).
Proof.
  induction left as [|left IH]; intros retry_count s f s' Hinv Hcopy.
  - intros [= <- <-]. split; [done|]. split; [|done].
    intros _. etrans; [|exact Hcopy]. by apply submseteq_cons.
  - cbn [while_loop].
    destruct (attempt yt pid max_retries delay t retry_count s)
      as [c s1] eqn:E.
    apply attempt_cases in E.
    destruct (effect_preserves_inv t copy s s1 c Hinv Hcopy E)
      as (Hinv1 & Hbreak & Hother & Hret).
    destruct c as [|retry_count'|].
    + intros [= <- <-]. split; [done|]. split; [|done].
      intros _. project_state. by apply Hbreak.
    + intros H. eapply IH; [exact Hinv1| |exact H].
      project_state. by apply Hother.
    + intros [= <- <-]. split; [done|]. split; [done|].
      intros _. project_state. split; [by apply Hother|by apply Hret].
Qed.

Lemma for_loop_inv copy :
  ∀ s f s',
    Obs.run_inv first files0 s →
    copy ⊆+ remaining s →
    for_loop yt pid max_retries delay copy s = (f, s') →
    Obs.run_inv first files0 s'
    ∧ (f = Stop →
       remaining s' ≠ []
       ∧ last (Obs.saves (trace s'))
         = Some (Progress pid (processed s') (remaining s'))).
Proof.
  induction copy as [|t copy IH]; intros s f s' Hinv Hcopy.
  - intros [= <- <-]. done.
  - cbn [for_loop].
    destruct (while_loop max_retries yt pid max_retries delay t 0 s)
      as [f1 s1] eqn:E.
    destruct (while_loop_inv _ t copy _ _ _ _ Hinv Hcopy E)
      as (Hinv1 & Hnext & Hstop).
    destruct f1.
    + intros H. eapply IH; [exact Hinv1| |exact H]. by apply Hnext.
    + intros [= <- <-]. split; [done|]. intros _.
      destruct (Hstop eq_refl) as [Hsub Hsave]. split; [|done].
      intros Hnil. rewrite Hnil in Hsub.
      by apply submseteq_nil_r in Hsub.
Qed.

End InvariantFacts.

Section RunFacts.

Import Engine.
Variables (yt : youtube) (pid : string) (max_retries delay : nat).

Lemma init_state_inv p r (files : gmap string file_content) tr :
  Obs.saves tr = [] →
  Obs.unlinks tr = [] →
  Obs.run_inv (p, r) files (init_state p r files tr).
Proof.
  intros Hsv Hun. split; project_state; try done.
  - by apply Forall_singleton.
  - unfold Obs.file_follows_saves. project_state. by rewrite Hsv.
Qed.

Lemma start_inv tracks (files : gmap string file_content) s0 :
  start pid tracks files = Ok s0 →
  Obs.run_inv (processed s0, remaining s0) files s0
  ∧ fs s0 = files
  ∧ searches s0 = 0
  ∧ appends s0 = 0.
Proof.
  unfold start.
  destruct (Store.load_progress files) as [[p|]|e] eqn:Hload; [| |done].
  - case_decide; intros [= <-]; (split; [by apply init_state_inv|done]).
  - intros [= <-]. split; [by apply init_state_inv|done].
Qed.

(** A call that leaves a state behind went through the loop. *)
Lemma run_end tracks (files : gmap string file_content) e s :
  search_and_add_to_playlist yt pid tracks max_retries delay files
  = (e, Some s) →
  ∃ s0 f s1,
    start pid tracks files = Ok s0
    ∧ for_loop yt pid max_retries delay (remaining s0) s0 = (f, s1)
    ∧ ((f = Stop ∧ e = QuotaStop ∧ s = s1)
       ∨ (f = NextTrack ∧ e = Finished ∧ s = finish s1)).
Proof.
  unfold search_and_add_to_playlist.
  destruct (start pid tracks files) as [s0|] eqn:Hstart; [|done].
  destruct (for_loop yt pid max_retries delay (remaining s0) s0)
    as [[] s1] eqn:Hloop; intros [= <- <-]; exists s0; eauto 10.
Qed.

Lemma finish_lists s :
  processed (finish s) = processed s
  ∧ remaining (finish s) = remaining s
  ∧ snapshots (finish s) = snapshots s.
Proof.
  unfold finish. destruct (remaining s) eqn:E; [|by rewrite E].
  cbv zeta. project_state.
  destruct (fs s !! Store.progress_file); project_state; by rewrite ?E.
Qed.


Lemma finish_done s :
  remaining s = [] → fs (finish s) !! Store.progress_file = None.
Proof.
  unfold finish. intros ->. cbv zeta. project_state.
  destruct (fs s !! Store.progress_file) eqn:E; project_state.
  - apply clear_lookup.
  - exact E.
Qed.

(** The lists at the end of the loop, with the invariant. *)
Lemma run_inv_end tracks (files : gmap string file_content) e s :
  search_and_add_to_playlist yt pid tracks max_retries delay files
  = (e, Some s) →
  ∃ s0 s1,
    start pid tracks files = Ok s0
    ∧ Obs.run_inv (processed s0, remaining s0) files s1
    ∧ processed s = processed s1
    ∧ remaining s = remaining s1
    ∧ snapshots s = snapshots s1
    ∧ ((e = QuotaStop ∧ s = s1 ∧ remaining s1 ≠ []
        ∧ last (Obs.saves (trace s1))
          = Some (Progress pid (processed s1) (remaining s1)))
       ∨ (e = Finished ∧ s = finish s1)).
Proof.
  intros H. apply run_end in H as (s0 & f & s1 & Hstart & Hloop & Hend).
  destruct (start_inv _ _ _ Hstart) as (Hinv0 & _).
  destruct (for_loop_inv yt pid max_retries delay _ files (remaining s0)
              s0 f s1 Hinv0 ltac:(done) Hloop) as (Hinv1 & Hstop).
  exists s0, s1. split; [done|]. split; [done|].
  destruct Hend as [(-> & -> & ->)|(-> & -> & ->)].
  - destruct (Hstop eq_refl) as [Hne Hsave]. repeat split; try done.
    left. done.
  - destruct (finish_lists s1) as (-> & -> & ->). repeat split; try done.
    right. done.
Qed.

End RunFacts.







(** ** Resuming *)

Lemma run_first_point yt pid tracks max_retries delay
    (files : gmap string file_content) s0 e s :
  Engine.start pid tracks files = Ok s0 →
  Engine.search_and_add_to_playlist yt pid tracks max_retries delay files
  = (e, Some s) →
  head (Engine.snapshots s)
  = Some (Engine.processed s0, Engine.remaining s0).
Proof.
  intros Hstart Hrun.
  apply run_inv_end in Hrun as (s0' & s1 & Hstart' & Hinv & _ & _ & Hsn & _).
  rewrite Hstart in Hstart'. injection Hstart' as <-.
  rewrite Hsn. by destruct Hinv.
Qed.

(** C4, as stated, fails at the entry point: a record left by a transfer
    into playlist "PL-A" exists, the invocation asks for playlist "PL-B"
    and a Spotify playlist with two usable tracks.  The record is not
    ignored: the run targets "PL-A", starts from the record's lists and
    never looks "PL-B" up. *)
Lemma C4_counterexample :
  ∃ before e s,
    Transfer.transfer_playlist 5 Examples.sp_small Examples.yt_ok
      (Some "SP") None (Some "PL-B") false Examples.files_a
    = Some (Transfer.Ran "PL-A" [Examples.song_b] before e (Some s))
    ∧ playlist_id Examples.record_a ≠ "PL-B"
    ∧ Extractor.get_spotify_tracks 5 Examples.sp_small "SP" false
      = Some [Track "s1" ["artist"]; Track "s2" ["artist"]]
    ∧ head (Engine.snapshots s) = Some (["c"], [Examples.song_b])
    ∧ head (Engine.snapshots s)
      ≠ Some ([], [Track "s1" ["artist"]; Track "s2" ["artist"]])
    ∧ Obs.lookups before = []
    ∧ Obs.append_calls (Engine.trace s) = [("PL-A", "v:b y z")].
Proof.
  eexists _, _, _. split; [vm_compute; reflexivity|].
  split; [discriminate|].
  split; [vm_compute; reflexivity|].
  split; [reflexivity|].
  split; [discriminate|].
  split; reflexivity.
Qed.

(** C4, amended.  When a progress record exists:
    [search_and_add_to_playlist] called with a playlist id equal to the
    record's starts from the record's [processed] and [remaining]; called
    with a different id it ignores the record and starts from its
    [tracks] argument with [processed] empty.  [transfer_playlist],
    however, does not compare the record with the destination asked for:
    whenever a record exists, it takes the record's playlist id as the
    target and the record's remaining tracks as the tracks, calls neither
    the extractor nor the resolver, and so always resumes from the
    record. *)
Theorem C4_resume_rule :
  ∀ (yt : youtube) (pid : string) (tracks : list track)
    (files : gmap string file_content) (p : progress),
    Store.load_progress files = Ok (Some p) →
    (playlist_id p = pid →
       ∃ s0, Engine.start pid tracks files = Ok s0
             ∧ Engine.processed s0 = processed_tracks p
             ∧ Engine.remaining s0 = remaining_tracks p
             ∧ ∀ max_retries delay e s,
                 Engine.search_and_add_to_playlist yt pid tracks
                   max_retries delay files = (e, Some s) →
                 head (Engine.snapshots s)
                 = Some (processed_tracks p, remaining_tracks p))
    ∧ (playlist_id p ≠ pid →
       ∃ s0, Engine.start pid tracks files = Ok s0
             ∧ Engine.processed s0 = []
             ∧ Engine.remaining s0 = tracks
             ∧ ∀ max_retries delay e s,
                 Engine.search_and_add_to_playlist yt pid tracks
                   max_retries delay files = (e, Some s) →
                 head (Engine.snapshots s) = Some ([], tracks))
    ∧ (∀ fuel sp spotify_playlist_id youtube_playlist_name
         youtube_playlist_id spotify_liked_songs,
         truthy youtube_playlist_name || truthy youtube_playlist_id = true →
         truthy spotify_playlist_id || spotify_liked_songs = true →
         ∃ before e s,
           Transfer.transfer_playlist fuel sp yt spotify_playlist_id
             youtube_playlist_name youtube_playlist_id spotify_liked_songs
             files
           = Some (Transfer.Ran (playlist_id p) (remaining_tracks p)
                     before e s)
           ∧ (e, s) = Engine.search_and_add_to_playlist yt (playlist_id p)
                        (remaining_tracks p) Engine.default_max_retries
                        Engine.default_delay files
           ∧ Obs.lookups before = []
           ∧ Obs.creations before = []
           ∧ ∀ s', s = Some s' →
               head (Engine.snapshots s')
               = Some (processed_tracks p, remaining_tracks p)).
Proof.
  intros yt pid tracks files p Hload.
  assert (∀ pid' tracks',
            playlist_id p = pid' →
            Engine.start pid' tracks' files
            = Ok (Engine.init_state (processed_tracks p) (remaining_tracks p)
                    files
                    [EPrint MsgResuming;
                     EPrint (MsgPreviouslyProcessed
                               (length (processed_tracks p)))])) as Hsame.
  { intros pid' tracks' Heq. unfold Engine.start.
    by rewrite Hload, decide_True. }
  split; [|split].
  - intros Heq. eexists. split; [by apply Hsame|].
    split; [done|]. split; [done|].
    intros max_retries delay e s Hrun.
    by rewrite (run_first_point _ _ _ _ _ _ _ _ _ (Hsame _ tracks Heq) Hrun).
  - intros Hne.
    assert (Engine.start pid tracks files
            = Ok (Engine.init_state [] tracks files [])) as Hstart.
    { apply start_fresh. right. by exists p. }
    eexists. split; [exact Hstart|]. split; [done|]. split; [done|].
    intros max_retries delay e s Hrun.
    by rewrite (run_first_point _ _ _ _ _ _ _ _ _ Hstart Hrun).
  - intros fuel sp spid yname yid liked Hdest Hsrc.
    unfold Transfer.transfer_playlist.
    assert (negb (truthy yname) && negb (truthy yid) = false) as ->.
    { rewrite <- negb_orb, Hdest. done. }
    assert (negb (truthy spid) && negb liked = false) as ->.
    { rewrite <- negb_orb, Hsrc. done. }
    rewrite Hload.
    destruct (Engine.search_and_add_to_playlist yt (playlist_id p)
                (remaining_tracks p) Engine.default_max_retries
                Engine.default_delay files) as [e s] eqn:Hrun.
    eexists _, e, s. split; [reflexivity|].
    split; [done|]. split; [done|]. split; [done|].
    intros s' ->.
    by rewrite (run_first_point _ _ _ _ _ _ _ _ _
                  (Hsame _ (remaining_tracks p) eq_refl) Hrun).
Qed.

Lemma C4_resume_rule_witness :
  ∃ s0, Engine.start "PL-B" Examples.five Examples.files_a = Ok s0
        ∧ Engine.processed s0 = []
        ∧ Engine.remaining s0 = Examples.five.
Proof.
  destruct (C4_resume_rule Examples.yt_ok "PL-B" Examples.five
              Examples.files_a Examples.record_a)
    as (_ & Hdiff & _).
  - reflexivity.
  - destruct Hdiff as (s0 & Hstart & Hp & Hr & _).
    + discriminate.
    + exists s0. split; [exact Hstart|]. split; [exact Hp|exact Hr].
Defined.

(** * Further properties *)

(** ** ProgressStore *)

(** X1.  The store has one slot and the last write wins: after two saves
    in a row only the second record can be loaded, whatever the file
    held before (a record, an incomplete file, nothing), and no other
    path of the file system is touched by saving or clearing. *)
Theorem X1_last_save_wins :
  ∀ (pid1 pid2 : string) (processed1 processed2 : list string)
    (remaining1 remaining2 : list track)
    (files : gmap string file_content),
    let files' :=
      Store.save_progress pid2 processed2 remaining2
        (Store.save_progress pid1 processed1 remaining1 files) in
    Store.load_progress files'
    = Ok (Some (Progress pid2 processed2 remaining2))
    ∧ files' = Store.save_progress pid2 processed2 remaining2 files
    ∧ (∀ path, path ≠ Store.progress_file →
         files' !! path = files !! path
         ∧ Store.clear files' !! path = files !! path).
Proof.
  intros pid1 pid2 processed1 processed2 remaining1 remaining2 files. cbv zeta.
  split; [apply load_after_save|].
  split.
  - rewrite !save_progress_insert. apply insert_insert_eq.
  - intros path Hpath. rewrite !save_progress_insert.
    unfold Store.clear. rewrite lookup_insert_eq.
    rewrite lookup_delete_ne by done.
    by rewrite !lookup_insert_ne by done.
Qed.

Lemma X1_last_save_wins_witness :
  Store.load_progress
    (Store.save_progress "PL-B" ["a"] []
       (Store.save_progress "PL-A" [] [Examples.song_a] Examples.files_a))
  = Ok (Some (Progress "PL-B" ["a"] []))
  ∧ Store.save_progress "PL-B" ["a"] []
      (Store.save_progress "PL-A" [] [Examples.song_a] Examples.files_a)
    !! "other.json" = None.
Proof.
  pose proof (X1_last_save_wins "PL-A" "PL-B" [] ["a"] [Examples.song_a] []
                Examples.files_a) as H.
  cbv zeta in H. destruct H as (Hload & _ & Hframe).
  split; [exact Hload|].
  destruct (Hframe "other.json") as [Hother _].
  - discriminate.
  - rewrite Hother. reflexivity.
Defined.

(** ** TrackExtractor *)

Lemma playlist_extraction_witness :
  Extractor.get_spotify_tracks 4 Examples.sp_small "PL" false
  = Some [Track "s1" ["artist"]; Track "s2" ["artist"]].
Proof.
  rewrite (playlist_extraction 4 Examples.sp_small "PL").
  - reflexivity.
  - simpl. lia.
  - simpl. lia.
Defined.

Lemma liked_extraction_without_skips_witness :
  Extractor.get_spotify_tracks 4 Examples.sp_all_valid "" true
  = Some [Track "s1" ["artist"]; Track "s2" ["artist"];
          Track "s3" ["artist"]].
Proof.
  rewrite (liked_extraction_without_skips 4 Examples.sp_all_valid "").
  - reflexivity.
  - simpl. lia.
  - simpl. repeat (apply Forall_cons; split; [eexists; reflexivity|]).
    constructor.
  - simpl. lia.
Defined.

(** X4.  A collection that fits in one page is extracted correctly by
    both branches, whatever items are skipped: one request is enough and
    the result is the descriptors of the usable items in source order. *)
Theorem X4_single_page_extraction :
  ∀ (fuel : nat) (sp : Extractor.spotify) (pid : string)
    (liked_songs : bool),
    let coll := if liked_songs then Extractor.saved_items sp
                else Extractor.playlist_items sp pid in
    let limit := if liked_songs then Extractor.saved_limit sp
                 else Extractor.playlist_limit sp in
    (length coll ≤ limit)%nat →
    Extractor.get_spotify_tracks (S fuel) sp pid liked_songs
    = Some (Extractor.descriptors coll).
Proof.
  intros fuel sp pid liked_songs. cbv zeta.
  unfold Extractor.get_spotify_tracks, Extractor.current_user_saved_tracks,
    Extractor.playlist_tracks, Extractor.page_at.
  destruct liked_songs; intros Hfit; simpl;
    rewrite decide_False by lia; rewrite extend_app;
    by rewrite drop_0, take_ge by lia.
Qed.

Lemma X4_single_page_extraction_witness :
  Extractor.get_spotify_tracks 1 Examples.sp_one_page "" true
  = Some [Track "s1" ["artist"]; Track "s2" ["artist"]].
Proof.
  rewrite (X4_single_page_extraction 0 Examples.sp_one_page "" true).
  - reflexivity.
  - simpl. lia.
Defined.

Section ExtractorSoundness.

Import Extractor.

Lemma page_items_subseteq limit (coll : list raw_item) offset :
  items (page_at limit coll offset) ⊆ coll.
Proof.
  unfold page_at. simpl. intros it Hit.
  eapply subseteq_drop, subseteq_take. exact Hit.
Qed.

Lemma pages_loop_sound fuel (sp : spotify) (pid : string)
    (liked_songs : bool) :
  ∀ (results : page) (tracks l : list track),
    let coll := if liked_songs then saved_items sp
                else playlist_items sp pid in
    items results ⊆ coll →
    tracks ⊆ descriptors coll →
    pages_loop fuel sp pid liked_songs results tracks = Some l →
    l ⊆ descriptors coll.
Proof.
  cbv zeta.
  induction fuel as [|fuel IH]; intros results tracks l Hitems Htracks;
    [done|].
  simpl. rewrite extend_app.
  assert (tracks ++ descriptors (items results)
          ⊆ descriptors (if liked_songs then saved_items sp
                         else playlist_items sp pid)) as Hnew.
  { intros t [Ht|Ht]%elem_of_app; [by apply Htracks|].
    unfold descriptors in *.
    apply list_elem_of_omap in Ht as (it & Hit & Hd).
    apply list_elem_of_omap. exists it. split; [by apply Hitems|done]. }
  destruct (next results) as [cursor|].
  - destruct liked_songs; apply IH; try done; apply page_items_subseteq.
  - by intros [= <-].
Qed.

Lemma artist_names_None l :
  artist_names l = None ↔ ∃ a, a ∈ l ∧ artist_name a = None.
Proof.
  induction l as [|a l IH]; simpl.
  - split; [done|]. intros (a & Ha & _). by apply elem_of_nil in Ha.
  - destruct (artist_name a) as [n|] eqn:Ea.
    + destruct (artist_names l) as [ns|].
      * split; [done|]. intros (b & Hb & Hn).
        apply elem_of_cons in Hb as [->|Hb]; [congruence|].
        destruct IH as [_ IH']. discriminate IH'. eauto.
      * split; [|done]. intros _.
        destruct IH as [IH' _]. destruct (IH' eq_refl) as (b & Hb & Hn).
        exists b. split; [by right|done].
    + split; [|done]. intros _. exists a. split; [by left|done].
Qed.

Lemma artist_names_Some l ns :
  artist_names l = Some ns → map artist_name l = map Some ns.
Proof.
  revert ns. induction l as [|a l IH]; intros ns; simpl.
  - by intros [= <-].
  - destruct (artist_name a) as [n|]; [|done].
    destruct (artist_names l) as [ns'|]; [|done].
    intros [= <-]. simpl. by rewrite (IH ns' eq_refl).
Qed.

End ExtractorSoundness.

(** X5.  Whatever the source, the pages and the skipped items, the
    extraction never returns a track that is not the descriptor of an
    item of the collection it was asked for: every returned track comes
    from an item that has all required fields. *)
Theorem X5_extraction_returns_only_source_tracks :
  ∀ (fuel : nat) (sp : Extractor.spotify) (pid : string)
    (liked_songs : bool) (l : list track) (t : track),
    Extractor.get_spotify_tracks fuel sp pid liked_songs = Some l →
    t ∈ l →
    ∃ it, it ∈ (if liked_songs then Extractor.saved_items sp
                else Extractor.playlist_items sp pid)
          ∧ Extractor.descriptor it = Some t.
Proof.
  intros fuel sp pid liked_songs l t Hrun Ht.
  unfold Extractor.get_spotify_tracks in Hrun.
  eapply pages_loop_sound in Hrun.
  - apply Hrun in Ht. unfold Extractor.descriptors in Ht.
    by apply list_elem_of_omap in Ht.
  - destruct liked_songs; apply page_items_subseteq.
  - intros x Hx. by apply elem_of_nil in Hx.
Qed.

Lemma X5_extraction_returns_only_source_tracks_witness :
  ∃ it, it ∈ Examples.library21
        ∧ Extractor.descriptor it = Some (Track "s19" ["artist"]).
Proof.
  eapply (X5_extraction_returns_only_source_tracks 3 Examples.sp_library21
            "" true).
  - vm_compute. reflexivity.
  - do 19 right. left.
Defined.

(** X6.  The liked-songs branch asks for the next page at the number of
    tracks kept so far.  When the library is longer than a page and no
    item of its first page is usable, that number stays 0: the same page
    is requested again and again and the extraction never returns,
    whatever the bound on the number of pages. *)
Theorem X6_liked_extraction_stuck_on_unusable_first_page :
  ∀ (fuel : nat) (sp : Extractor.spotify) (pid : string),
    Extractor.saved_limit sp < length (Extractor.saved_items sp) →
    Extractor.descriptors
      (take (Extractor.saved_limit sp) (Extractor.saved_items sp)) = [] →
    Extractor.get_spotify_tracks fuel sp pid true = None.
Proof.
  intros fuel sp pid Hlong Hnone. unfold Extractor.get_spotify_tracks.
  assert (Extractor.items (Extractor.current_user_saved_tracks sp 0)
          = take (Extractor.saved_limit sp) (Extractor.saved_items sp))
    as Hitems by reflexivity.
  assert (Extractor.next (Extractor.current_user_saved_tracks sp 0)
          = Some (Extractor.saved_limit sp)) as Hnext.
  { unfold Extractor.current_user_saved_tracks, Extractor.page_at. simpl.
    by rewrite decide_True by lia. }
  induction fuel as [|fuel IH]; [done|].
  cbn [Extractor.pages_loop].
  rewrite Hitems, Hnext, extend_app, Hnone. exact IH.
Qed.

Lemma X6_liked_extraction_stuck_on_unusable_first_page_witness :
  Extractor.get_spotify_tracks 1000 Examples.sp_stuck "" true = None.
Proof.
  apply X6_liked_extraction_stuck_on_unusable_first_page.
  - simpl. lia.
  - reflexivity.
Defined.

(** X7.  An item is skipped exactly when its track is null, or the track
    has no name, or no artist list, or an artist without a name.  An
    item that is kept gives the track's name and the names of its
    artists in their order. *)
Theorem X7_descriptor_skips_exactly_incomplete_items :
  ∀ (it : Extractor.raw_item),
    (Extractor.descriptor it = None
     ↔ Extractor.item_track it = None
       ∨ ∃ t, Extractor.item_track it = Some t
              ∧ (Extractor.track_name t = None
                 ∨ Extractor.track_artists t = None
                 ∨ ∃ arts a, Extractor.track_artists t = Some arts
                           ∧ a ∈ arts
                           ∧ Extractor.artist_name a = None))
    ∧ (∀ tr, Extractor.descriptor it = Some tr →
         ∃ t arts, Extractor.item_track it = Some t
                   ∧ Extractor.track_name t = Some (name tr)
                   ∧ Extractor.track_artists t = Some arts
                   ∧ map Extractor.artist_name arts
                     = map Some (artists tr)).
Proof.
  intros [[[n arts]|]]; unfold Extractor.descriptor; simpl.
  - destruct n as [n|]; [destruct arts as [arts|]|].
    + destruct (Extractor.artist_names arts) as [ns|] eqn:E.
      * split.
        -- split; [done|]. intros [|(t & [= <-] & [|[|H]])]; try done.
           simpl in H. destruct H as (arts' & a & [= <-] & Ha & Hn).
           assert (Extractor.artist_names arts = None) as H'
             by (apply artist_names_None; eauto).
           congruence.
        -- intros tr [= <-]. eexists _, arts. simpl.
           repeat split; try done. by apply artist_names_Some.
      * split; [|done]. split; [|done]. intros _. right.
        apply artist_names_None in E as (a & Ha & Hn).
        eexists. split; [done|]. right. right. simpl. eauto.
    + split; [|done]. split; [|done]. intros _. right.
      eexists. split; [done|]. right. by left.
    + split; [|done]. split; [|done]. intros _. right.
      eexists. split; [done|]. by left.
  - split; [|done]. split; [|done]. intros _. by left.
Qed.

(** ** PlaylistResolver *)

(** X8.  The selectors are tested for truth, not for presence: an empty
    string counts as absent.  An empty id makes the resolver fall
    through to the name (and create a playlist), an empty name is no
    name, and two empty strings raise the same [ValueError] as two
    absent arguments, without any request. *)
Theorem X8_empty_selectors_count_as_absent :
  ∀ (yt : youtube) (playlist_name playlist_id : option string)
    (description : string),
    Resolver.create_or_get_youtube_playlist yt playlist_name (Some "")
      description
    = Resolver.create_or_get_youtube_playlist yt playlist_name None
        description
    ∧ Resolver.create_or_get_youtube_playlist yt (Some "") playlist_id
        description
      = Resolver.create_or_get_youtube_playlist yt None playlist_id
          description
    ∧ Resolver.create_or_get_youtube_playlist yt (Some "") (Some "")
        description
      = (Raise (ValueError
                  "Either playlist_name or playlist_id must be provided"),
         [])
    ∧ (∀ n, n ≠ "" →
         Resolver.create_or_get_youtube_playlist yt (Some n) (Some "")
           description
         = (playlists_insert yt n description "private",
            [EPlaylistsInsert n description "private"])).
Proof.
  intros yt playlist_name playlist_id description.
  unfold Resolver.create_or_get_youtube_playlist.
  split; [done|]. split; [by destruct (truthy playlist_id)|].
  split; [done|].
  intros n Hn. simpl. by rewrite bool_decide_eq_true_2.
Qed.

(** ** TransferEngine: edge cases of a run *)

(** Like [project_state], by rewriting. *)
Ltac rewrite_projection p :=
  repeat match goal with
  | |- context [p ?x] =>
      let y := eval cbn [Engine.processed Engine.remaining Engine.fs
                         Engine.searches Engine.appends Engine.trace
                         Engine.snapshots Engine.emit Engine.set_fs
                         Engine.add_processed Engine.set_remaining
                         Engine.count_search Engine.count_append
                         Engine.snapshot Engine.print Engine.sleep
                         Engine.save Engine.init_state] in (p x) in
      progress (replace (p x) with y by reflexivity)
  end.

Ltac rewrite_state :=
  rewrite_projection Engine.processed; rewrite_projection Engine.remaining;
  rewrite_projection Engine.fs; rewrite_projection Engine.searches;
  rewrite_projection Engine.appends; rewrite_projection Engine.trace;
  rewrite_projection Engine.snapshots.

Section QuietFacts.

Import Engine.
Variables (yt : youtube) (pid : string) (max_retries delay : nat).

Lemma no_requests_app tr evs :
  Obs.no_requests tr → Obs.no_requests evs → Obs.no_requests (tr ++ evs).
Proof.
  unfold Obs.no_requests, Obs.search_calls, Obs.append_calls, Obs.waits,
    Obs.saves.
  intros (H1 & H2 & H3 & H4) (H1' & H2' & H3' & H4').
  rewrite !omap_app, H1, H2, H3, H4, H1', H2', H3', H4'. done.
Qed.

Lemma start_quiet tracks (files : gmap string file_content) s0 :
  start pid tracks files = Ok s0 → Obs.no_requests (trace s0).
Proof.
  unfold start.
  destruct (Store.load_progress files) as [[p|]|e]; [| |done].
  - case_decide; by intros [= <-].
  - by intros [= <-].
Qed.

Lemma finish_quiet s :
  Obs.no_requests (trace s) → Obs.no_requests (trace (finish s)).
Proof.
  intros H. unfold finish. destruct (remaining s); [|done].
  cbv zeta. project_state.
  destruct (fs s !! Store.progress_file); project_state;
    repeat (apply no_requests_app; [|done]); done.
Qed.

Lemma for_loop_no_attempts copy s :
  for_loop yt pid 0 delay copy s = (NextTrack, s).
Proof. induction copy as [|t copy IH]; [done|]. simpl. exact IH. Qed.

Lemma handle_unexpected t retry_count e s :
  Obs.not_http e →
  handle pid max_retries delay t retry_count e s
  = (Break, print (MsgUnexpected (name t)) s).
Proof. by destruct e. Qed.

Lemma attempt_quota_on_search t retry_count s msg :
  search_list yt (searches s) (query_of t) = Raise (HttpError msg) →
  quota_exceeded msg = true →
  ∃ s', attempt yt pid max_retries delay t retry_count s = (Return, s')
        ∧ processed s' = processed s
        ∧ remaining s' = remaining s
        ∧ fs s' = Store.save_progress pid (processed s) (remaining s) (fs s)
        ∧ trace s' = trace s ++
            [ESearch (query_of t);
             EPrint (MsgQuotaExceeded (length (processed s)));
             ESave (Progress pid (processed s) (remaining s))].
Proof.
  intros Hs Hq. unfold attempt, do_search. rewrite Hs.
  unfold handle. rewrite Hq.
  eexists; (split; [reflexivity|]); project_state.
  by rewrite <- !app_assoc.
Qed.

(** What the first attempt does when it runs into an unexpected
    failure. *)
Lemma attempt_unexpected t retry_count s :
  Obs.unexpected_failure yt pid t s →
  ∃ s' evs,
    attempt yt pid max_retries delay t retry_count s = (Break, s')
    ∧ processed s' = processed s
    ∧ remaining s' = remaining s
    ∧ fs s' = fs s
    ∧ trace s' = trace s ++ evs
    ∧ Obs.search_calls evs = [query_of t]
    ∧ (length (Obs.append_calls evs) ≤ 1)%nat
    ∧ Obs.waits evs = []
    ∧ Obs.saves evs = [].
Proof.
  intros [(e & Hs & He)|[(rest & Hs)|(vid & rest & e & Hs & Ha & He)]];
    unfold attempt, do_search; rewrite Hs.
  - rewrite handle_unexpected by done.
    eexists _, [ESearch (query_of t); EPrint (MsgUnexpected (name t))].
    split; [reflexivity|]. rewrite_state.
    rewrite <- !app_assoc. repeat split; try done. simpl. lia.
  - rewrite handle_unexpected by done.
    eexists _, [ESearch (query_of t); EPrint (MsgUnexpected (name t))].
    split; [reflexivity|]. rewrite_state.
    rewrite <- !app_assoc. repeat split; try done. simpl. lia.
  - unfold do_append. project_state. rewrite Ha.
    rewrite handle_unexpected by done.
    eexists _, [ESearch (query_of t); EAppend pid vid;
                EPrint (MsgUnexpected (name t))].
    split; [reflexivity|]. rewrite_state.
    rewrite <- !app_assoc. repeat split; try done.
Qed.

End QuietFacts.

(** X9.  With [max_retries = 0] the condition of the [while] loop is
    false from the start: whatever the tracks, the client and the
    progress file, the run sends no search and no append, does not
    pause, saves nothing, and the two lists are as they were at the
    start. *)
Theorem X9_no_attempt_without_retry_budget :
  ∀ (yt : youtube) (pid : string) (tracks : list track) (delay : nat)
    (files : gmap string file_content) (s0 : Engine.state),
    Engine.start pid tracks files = Ok s0 →
    ∃ s,
      Engine.search_and_add_to_playlist yt pid tracks 0 delay files
      = (Engine.Finished, Some s)
      ∧ Engine.processed s = Engine.processed s0
      ∧ Engine.remaining s = Engine.remaining s0
      ∧ Obs.no_requests (Engine.trace s).
Proof.
  intros yt pid tracks delay files s0 Hstart.
  unfold Engine.search_and_add_to_playlist.
  rewrite Hstart, for_loop_no_attempts.
  eexists. split; [reflexivity|].
  destruct (finish_lists s0) as (-> & -> & _).
  split; [done|]. split; [done|].
  eapply finish_quiet, start_quiet, Hstart.
Qed.

Lemma X9_no_attempt_without_retry_budget_witness :
  ∃ s,
    Engine.search_and_add_to_playlist Examples.yt_ok "PL" Examples.five 0 2
      Examples.no_files
    = (Engine.Finished, Some s)
    ∧ Engine.remaining s = Examples.five.
Proof.
  destruct (X9_no_attempt_without_retry_budget Examples.yt_ok "PL"
              Examples.five 2 Examples.no_files
              (Engine.init_state [] Examples.five Examples.no_files []))
    as (s & Hrun & _ & Hr & _).
  - reflexivity.
  - exists s. split; [exact Hrun|exact Hr].
Defined.

(** X10.  A fresh call with an empty track list sends no request and
    ends with the progress file absent.  If a record of a transfer into
    another playlist was in the file, that record is ignored at the
    start and then deleted with the file. *)
Theorem X10_empty_run_clears_the_file :
  ∀ (yt : youtube) (pid : string) (max_retries delay : nat)
    (files : gmap string file_content),
    (Store.load_progress files = Ok None
     ∨ (∃ p, Store.load_progress files = Ok (Some p) ∧ playlist_id p ≠ pid)) →
    ∃ s,
      Engine.search_and_add_to_playlist yt pid [] max_retries delay files
      = (Engine.Finished, Some s)
      ∧ Engine.processed s = []
      ∧ Engine.remaining s = []
      ∧ Obs.no_requests (Engine.trace s)
      ∧ Engine.fs s !! Store.progress_file = None
      ∧ (is_Some (files !! Store.progress_file) →
         Obs.unlinks (Engine.trace s) = [()]).
Proof.
  intros yt pid max_retries delay files Hfresh.
  unfold Engine.search_and_add_to_playlist.
  rewrite (start_fresh pid [] files Hfresh). simpl.
  eexists. split; [reflexivity|].
  split; [apply finish_lists|]. split; [apply finish_lists|].
  split; [by apply finish_quiet|].
  split; [by apply finish_done|].
  intros [c Hc]. unfold Engine.finish. cbv zeta. project_state.
  rewrite Hc. project_state. done.
Qed.

Lemma X10_empty_run_clears_the_file_witness :
  ∃ s,
    Engine.search_and_add_to_playlist Examples.yt_ok "PL-B" [] 3 2
      Examples.files_a
    = (Engine.Finished, Some s)
    ∧ Engine.fs s !! Store.progress_file = None
    ∧ Obs.unlinks (Engine.trace s) = [()].
Proof.
  destruct (X10_empty_run_clears_the_file Examples.yt_ok "PL-B" 3 2
              Examples.files_a)
    as (s & Hrun & _ & _ & _ & Hf & Hun).
  - right. exists Examples.record_a. split; [reflexivity|discriminate].
  - exists s. split; [exact Hrun|]. split; [exact Hf|].
    apply Hun. eexists. reflexivity.
Defined.

(** X11.  The quota check covers the search as well as the append: when
    the search for a track is refused with an [HttpError] that mentions
    [quotaExceeded], the function saves the two lists as they are and
    returns without appending anything and without trying the tracks
    that follow. *)
Theorem X11_quota_on_search_stops_the_run :
  ∀ (yt : youtube) (pid : string) (max_retries delay : nat) (t : track)
    (copy : list track) (s : Engine.state) (msg : string),
    0 < max_retries →
    search_list yt (Engine.searches s) (Engine.query_of t)
    = Raise (HttpError msg) →
    Engine.quota_exceeded msg = true →
    ∃ s',
      Engine.for_loop yt pid max_retries delay (t :: copy) s
      = (Engine.Stop, s')
      ∧ Engine.processed s' = Engine.processed s
      ∧ Engine.remaining s' = Engine.remaining s
      ∧ Engine.fs s' !! Store.progress_file
        = Some (Json (Progress pid (Engine.processed s)
                        (Engine.remaining s)))
      ∧ Obs.search_calls (Obs.since s s') = [Engine.query_of t]
      ∧ Obs.append_calls (Obs.since s s') = []
      ∧ Obs.waits (Obs.since s s') = [].
Proof.
  intros yt pid max_retries delay t copy s msg Hpos Hs Hq.
  destruct max_retries as [|left]; [lia|].
  destruct (attempt_quota_on_search yt pid (S left) delay t 0 s msg Hs Hq)
    as (s1 & E & Hp & Hr & Hf & Ht).
  exists (Engine.snapshot s1). cbn [Engine.for_loop Engine.while_loop].
  rewrite E. split; [reflexivity|]. unfold Obs.since. project_state.
  rewrite Hp, Hr, Hf, Ht, drop_app_length.
  rewrite save_progress_insert, lookup_insert_eq. done.
Qed.

Lemma X11_quota_on_search_stops_the_run_witness :
  ∃ s',
    Engine.for_loop Examples.yt_search_quota "PL" 3 2 Examples.five
      (Engine.init_state [] Examples.five Examples.no_files [])
    = (Engine.Stop, s')
    ∧ Engine.remaining s' = Examples.five.
Proof.
  destruct (X11_quota_on_search_stops_the_run Examples.yt_search_quota "PL"
              3 2 Examples.song_a
              [Examples.song_b; Examples.song_c; Examples.song_d;
               Examples.song_e]
              (Engine.init_state [] Examples.five Examples.no_files [])
              "HttpError 403: quotaExceeded")
    as (s' & Hrun & _ & Hr & _).
  - lia.
  - reflexivity.
  - reflexivity.
  - exists s'. split; [exact Hrun|exact Hr].
Defined.

(** X12.  A failure that is not an [HttpError] (the search or the append
    raises something else, or the first hit carries no video id) is not
    retried: the track's loop ends after that one attempt, with one
    search and at most one append, no pause and no save, and both lists
    and the file unchanged. *)
Theorem X12_unexpected_failure_is_not_retried :
  ∀ (yt : youtube) (pid : string) (max_retries delay : nat) (t : track)
    (s : Engine.state),
    0 < max_retries →
    Obs.unexpected_failure yt pid t s →
    ∃ s',
      Engine.while_loop max_retries yt pid max_retries delay t 0 s
      = (Engine.NextTrack, s')
      ∧ Engine.processed s' = Engine.processed s
      ∧ Engine.remaining s' = Engine.remaining s
      ∧ Engine.fs s' = Engine.fs s
      ∧ Obs.search_calls (Obs.since s s') = [Engine.query_of t]
      ∧ (length (Obs.append_calls (Obs.since s s')) ≤ 1)%nat
      ∧ Obs.waits (Obs.since s s') = []
      ∧ Obs.saves (Obs.since s s') = [].
Proof.
  intros yt pid max_retries delay t s Hpos Hfail.
  destruct max_retries as [|left]; [lia|].
  destruct (attempt_unexpected yt pid (S left) delay t 0 s Hfail)
    as (s1 & evs & E & Hp & Hr & Hf & Ht & Hsc & Hac & Hw & Hsv).
  exists (Engine.snapshot s1). cbn [Engine.while_loop]. rewrite E.
  split; [reflexivity|]. unfold Obs.since. project_state.
  rewrite Ht, drop_app_length. done.
Qed.

Lemma X12_unexpected_failure_is_not_retried_witness :
  ∃ s',
    Engine.while_loop 3 Examples.yt_offline "PL" 3 2 Examples.song_a 0
      (Engine.init_state [] [Examples.song_a] Examples.no_files [])
    = (Engine.NextTrack, s')
    ∧ Engine.remaining s' = [Examples.song_a].
Proof.
  destruct (X12_unexpected_failure_is_not_retried Examples.yt_offline "PL"
              3 2 Examples.song_a
              (Engine.init_state [] [Examples.song_a] Examples.no_files []))
    as (s' & Hrun & _ & Hr & _).
  - lia.
  - left. eexists. split; [reflexivity|exact I].
  - exists s'. split; [exact Hrun|exact Hr].
Defined.

(** ** TransferEngine: retries that succeed *)

Section RecoveryFacts.

Import Engine.
Variables (yt : youtube) (pid : string) (max_retries delay : nat).

(** [k] refusals that are not about the quota, then a success. *)
Lemma while_loop_refused_then_added t rest k :
  ∀ left retry_count s,
    retry_count + left = max_retries →
    k < left →
    (∀ i, (i ≤ k)%nat →
       ∃ vid others,
         search_list yt (searches s + i) (query_of t)
         = Ok (Some vid :: others)) →
    (∀ i vid, i < k →
       ∃ msg, playlist_items_insert yt (appends s + i) pid vid
              = Raise (HttpError msg)
              ∧ quota_exceeded msg = false) →
    (∀ vid, playlist_items_insert yt (appends s + k) pid vid = Ok ()) →
    list_remove t (remaining s) = Some rest →
    ∃ s' evs,
      while_loop left yt pid max_retries delay t retry_count s
      = (NextTrack, s')
      ∧ trace s' = trace s ++ evs
      ∧ processed s' = processed s ++ [name t]
      ∧ remaining s' = rest
      ∧ fs s' = Store.save_progress pid (processed s ++ [name t]) rest (fs s)
      ∧ Obs.waits evs = replicate k (delay * 2) ++ [delay]
      ∧ length (Obs.append_calls evs) = S k
      ∧ Obs.saves evs = [Progress pid (processed s ++ [name t]) rest].
Proof.
  induction k as [|k IH];
    intros left retry_count s Hsum Hk Hsearch Hrefused Hok Hrm;
    (destruct left as [|left]; [lia|]); cbn [while_loop].
  - destruct (Hsearch 0 ltac:(lia)) as (vid & others & Hs).
    pose proof (Hok vid) as Ha. rewrite Nat.add_0_r in Hs, Ha.
    destruct (attempt_added yt pid max_retries delay t retry_count s
                vid others rest Hs Ha Hrm)
      as (s1 & E & Hp1 & Hr1 & Hf1 & _ & _ & _ & Ht1).
    rewrite E. eexists (snapshot s1), _. split; [reflexivity|].
    project_state. rewrite Ht1, Hp1, Hr1, Hf1. by repeat split.
  - destruct (Hsearch 0 ltac:(lia)) as (vid & others & Hs).
    destruct (Hrefused 0 vid ltac:(lia)) as (msg & Ha & Hq).
    rewrite Nat.add_0_r in Hs, Ha.
    destruct (attempt_refused yt pid max_retries delay t retry_count s
                vid others msg Hs Ha Hq)
      as (s1 & E & Hp1 & Hr1 & Hf1 & Hs1 & Ha1 & _ & Ht1).
    rewrite E. rewrite decide_False in Ht1 by lia.
    destruct (IH left (S retry_count) (snapshot s1))
      as (s' & evs & E' & Ht' & Hp' & Hr' & Hf' & Hw & Hac & Hsv).
    + lia.
    + lia.
    + intros i Hi. project_state. rewrite Hs1.
      destruct (Hsearch (S i) ltac:(lia)) as (v & o & Hv).
      exists v, o. rewrite <- Hv. f_equal. lia.
    + intros i v Hi. project_state. rewrite Ha1.
      destruct (Hrefused (S i) v ltac:(lia)) as (m & Hm & Hmq).
      exists m. split; [|done]. rewrite <- Hm. f_equal. lia.
    + intros v. project_state. rewrite Ha1.
      rewrite <- (Hok v). f_equal. lia.
    + project_state. by rewrite Hr1.
    + project_state in Ht'. project_state in Hp'. project_state in Hf'.
      exists s'. eexists. split; [exact E'|].
      rewrite Ht', Ht1, <- app_assoc. split; [reflexivity|].
      rewrite Hp', Hf', Hp1, Hf1.
      unfold Obs.waits, Obs.append_calls, Obs.saves in *.
      rewrite !omap_app, !length_app, Hw, Hac, Hsv. simpl.
      rewrite Hp1. by repeat split.
Qed.

End RecoveryFacts.

(** X13.  A track whose append is refused [k] times for a reason other
    than the quota and then accepted, with [k] below [max_retries], is
    added: its name is appended to [processed], its first occurrence
    leaves [remaining], the new lists are saved once, [k + 1] appends
    were requested, and the pauses were [delay * 2] after each refusal
    and [delay] after the success. *)
Theorem X13_refusals_then_success :
  ∀ (yt : youtube) (pid : string) (max_retries delay : nat) (t : track)
    (rest : list track) (k : nat) (s : Engine.state),
    k < max_retries →
    (∀ i, (i ≤ k)%nat →
       ∃ vid others,
         search_list yt (Engine.searches s + i) (Engine.query_of t)
         = Ok (Some vid :: others)) →
    (∀ i vid, i < k →
       ∃ msg, playlist_items_insert yt (Engine.appends s + i) pid vid
              = Raise (HttpError msg)
              ∧ Engine.quota_exceeded msg = false) →
    (∀ vid, playlist_items_insert yt (Engine.appends s + k) pid vid
            = Ok ()) →
    Engine.list_remove t (Engine.remaining s) = Some rest →
    ∃ s',
      Engine.while_loop max_retries yt pid max_retries delay t 0 s
      = (Engine.NextTrack, s')
      ∧ Engine.processed s' = Engine.processed s ++ [name t]
      ∧ Engine.remaining s' = rest
      ∧ Engine.fs s' !! Store.progress_file
        = Some (Json (Progress pid (Engine.processed s ++ [name t]) rest))
      ∧ Obs.waits (Obs.since s s') = replicate k (delay * 2) ++ [delay]
      ∧ length (Obs.append_calls (Obs.since s s')) = S k
      ∧ Obs.saves (Obs.since s s')
        = [Progress pid (Engine.processed s ++ [name t]) rest].
Proof.
  intros yt pid max_retries delay t rest k s Hk Hsearch Hrefused Hok Hrm.
  destruct (while_loop_refused_then_added yt pid max_retries delay t rest k
              max_retries 0 s eq_refl Hk Hsearch Hrefused Hok Hrm)
    as (s' & evs & E & Ht & Hp & Hr & Hf & Hw & Hac & Hsv).
  exists s'. split; [exact E|].
  rewrite (since_app s s' _ Ht), Hf, save_progress_insert, lookup_insert_eq.
  by repeat split.
Qed.

Lemma X13_refusals_then_success_witness :
  ∃ s',
    Engine.while_loop 3 Examples.yt_flaky "PL" 3 2 Examples.song_a 0
      (Engine.init_state [] [Examples.song_a; Examples.song_b]
         Examples.no_files [])
    = (Engine.NextTrack, s')
    ∧ Engine.processed s' = ["a"]
    ∧ Engine.remaining s' = [Examples.song_b]
    ∧ Obs.waits
        (Obs.since
           (Engine.init_state [] [Examples.song_a; Examples.song_b]
              Examples.no_files []) s')
      = [4; 2].
Proof.
  destruct (X13_refusals_then_success Examples.yt_flaky "PL" 3 2
              Examples.song_a [Examples.song_b] 1
              (Engine.init_state [] [Examples.song_a; Examples.song_b]
                 Examples.no_files []))
    as (s' & Hrun & Hp & Hr & _ & Hw & _).
  - lia.
  - intros i Hi. eexists _, _. reflexivity.
  - intros i vid Hi. assert (i = 0) as -> by lia.
    eexists. split; reflexivity.
  - intros vid. reflexivity.
  - reflexivity.
  - exists s'. split; [exact Hrun|]. split; [exact Hp|].
    split; [exact Hr|exact Hw].
Defined.

(** ** TransferEngine: what a run never does *)

Section OrderFacts.

Import Engine.

Lemma list_remove_sublist t l rest :
  list_remove t l = Some rest → rest `sublist_of` l.
Proof.
  revert rest. induction l as [|x l IH]; intros rest; simpl; [done|].
  case_decide.
  - intros [= <-]. by apply sublist_cons.
  - destruct (list_remove t l) as [r|]; [|done].
    intros [= <-]. apply sublist_skip. by apply IH.
Qed.

Lemma moved_one_forward a b :
  Obs.moved_one a b → a.1 `prefix_of` b.1 ∧ b.2 `sublist_of` a.2.
Proof.
  intros [<-|(t & _ & Hp & Hr)]; [done|].
  split; [rewrite Hp; by apply prefix_app_r|].
  by eapply list_remove_sublist.
Qed.

Lemma chain_forward l :
  ∀ a, Obs.chain Obs.moved_one (a :: l) →
       Forall (λ sn, a.1 `prefix_of` sn.1 ∧ sn.2 `sublist_of` a.2) (a :: l).
Proof.
  induction l as [|b l IH]; intros a Hc.
  - by apply Forall_singleton.
  - destruct Hc as [Hab Hc]. apply moved_one_forward in Hab as [Hp Hs].
    constructor; [done|].
    eapply Forall_impl; [apply (IH b Hc)|].
    intros sn [Hp' Hs']. split; by etrans.
Qed.

End OrderFacts.

(** X14.  [processed] is append-only and [remaining] only shrinks, in
    order: at every point of a run the [processed] list the run started
    with is a prefix of the current one, and the current [remaining] is
    a sublist of the one the run started with (nothing is added to it,
    nothing is reordered). *)
Theorem X14_lists_only_move_forward :
  ∀ (yt : youtube) (pid : string) (tracks : list track)
    (max_retries delay : nat) (files : gmap string file_content)
    (s0 : Engine.state) (e : Engine.ending) (s : Engine.state),
    Engine.start pid tracks files = Ok s0 →
    Engine.search_and_add_to_playlist yt pid tracks max_retries delay files
    = (e, Some s) →
    Forall (λ sn, Engine.processed s0 `prefix_of` sn.1
                  ∧ sn.2 `sublist_of` Engine.remaining s0)
      (Engine.snapshots s)
    ∧ Engine.processed s0 `prefix_of` Engine.processed s
    ∧ Engine.remaining s `sublist_of` Engine.remaining s0.
Proof.
  intros yt pid tracks max_retries delay files s0 e s Hstart Hrun.
  apply run_inv_end in Hrun
    as (s0' & s1 & Hstart' & Hinv & Hp & Hr & Hsn & _).
  rewrite Hstart in Hstart'. injection Hstart' as <-.
  destruct Hinv as [Hhead Hlast _ Hchain _ _].
  rewrite Hsn, Hp, Hr.
  destruct (Engine.snapshots s1) as [|a l] eqn:El; [done|].
  injection Hhead as ->.
  pose proof (chain_forward l _ Hchain) as Hall.
  split; [exact Hall|].
  apply last_Some_elem_of in Hlast.
  by apply (proj1 (Forall_forall _ _) Hall) in Hlast.
Qed.

Lemma X14_lists_only_move_forward_witness :
  ∃ s, Engine.search_and_add_to_playlist Examples.yt_quota "PL"
         Examples.five 3 2 Examples.no_files
       = (Engine.QuotaStop, Some s)
       ∧ Engine.remaining s `sublist_of` Examples.five.
Proof.
  eexists. split; [vm_compute; reflexivity|].
  eapply (X14_lists_only_move_forward Examples.yt_quota "PL" Examples.five
            3 2 Examples.no_files
            (Engine.init_state [] Examples.five Examples.no_files [])).
  - reflexivity.
  - vm_compute. reflexivity.
Defined.

Ltac loop_events :=
  repeat (apply Forall_cons; split;
          [unfold Obs.loop_event;
           first [exact I | reflexivity | by left | by right]|]);
  constructor.

Section RequestFacts.

Import Engine.
Variables (yt : youtube) (pid : string) (max_retries delay : nat).

Lemma handle_requests t retry_count e s c s' :
  handle pid max_retries delay t retry_count e s = (c, s') →
  ∃ evs, trace s' = trace s ++ evs
         ∧ Forall (Obs.loop_event pid delay) evs
         ∧ Obs.search_calls evs = []
         ∧ Obs.append_calls evs = [].
Proof.
  unfold handle. destruct e as [msg| | | |];
    try (intros [= <- <-]; eexists [_]; repeat split; loop_events).
  destruct (quota_exceeded msg).
  - intros [= <- <-]. eexists [_; _]. rewrite_state.
    rewrite <- !app_assoc. repeat split. loop_events.
  - case_decide; intros [= <- <-].
    + eexists [_]. repeat split. loop_events.
    + eexists [_; _]. rewrite_state. rewrite <- !app_assoc.
      repeat split. loop_events.
Qed.

Lemma attempt_requests t retry_count s c s' :
  attempt yt pid max_retries delay t retry_count s = (c, s') →
  ∃ evs, trace s' = trace s ++ evs
         ∧ Forall (Obs.loop_event pid delay) evs
         ∧ length (Obs.search_calls evs) = 1
         ∧ (length (Obs.append_calls evs) ≤ 1)%nat.
Proof.
  assert (∀ s1 evs1,
            trace s1 = trace s ++ evs1 →
            Forall (Obs.loop_event pid delay) evs1 →
            length (Obs.search_calls evs1) = 1 →
            (length (Obs.append_calls evs1) ≤ 1)%nat →
            ∀ e, handle pid max_retries delay t retry_count e s1 = (c, s') →
                 ∃ evs, trace s' = trace s ++ evs
                        ∧ Forall (Obs.loop_event pid delay) evs
                        ∧ length (Obs.search_calls evs) = 1
                        ∧ (length (Obs.append_calls evs) ≤ 1)%nat)
    as Hhandle.
  { intros s1 evs1 Ht1 Hok1 Hs1 Ha1 e H.
    apply handle_requests in H as (evs & Ht & Hok & Hsc & Hac).
    exists (evs1 ++ evs). rewrite Ht, Ht1, <- app_assoc.
    split; [done|]. split; [by apply Forall_app|].
    unfold Obs.search_calls, Obs.append_calls in *.
    rewrite !omap_app, !length_app, Hsc, Hac. simpl. lia. }
  unfold attempt, do_search.
  destruct (search_list yt (searches s) (query_of t))
    as [[|[vid|] rest]|e].
  - intros [= <- <-]. eexists [_; _]. rewrite_state.
    rewrite <- !app_assoc. repeat split; [loop_events|simpl; lia].
  - unfold do_append. project_state.
    destruct (playlist_items_insert yt (appends s) pid vid) as [[]|e].
    + cbv zeta. project_state.
      destruct (list_remove t (remaining s)) as [rest'|].
      * intros [= <- <-]. eexists [_; _; _; _; _]. rewrite_state.
        rewrite <- !app_assoc.
        repeat split; [loop_events|simpl; lia].
      * apply (Hhandle _ [ESearch (query_of t); EAppend pid vid;
                          EPrint (MsgAdded (name t))]).
        -- rewrite_state. by rewrite <- !app_assoc.
        -- loop_events.
        -- done.
        -- done.
    + apply (Hhandle _ [ESearch (query_of t); EAppend pid vid]).
      * rewrite_state. by rewrite <- !app_assoc.
      * loop_events.
      * done.
      * done.
  - apply (Hhandle _ [ESearch (query_of t)]); try done.
    + loop_events.
    + simpl. lia.
  - apply (Hhandle _ [ESearch (query_of t)]); try done.
    + loop_events.
    + simpl. lia.
Qed.

Lemma while_loop_requests left t :
  ∀ retry_count s f s',
    while_loop left yt pid max_retries delay t retry_count s = (f, s') →
    ∃ evs, trace s' = trace s ++ evs
           ∧ Forall (Obs.loop_event pid delay) evs
           ∧ (length (Obs.search_calls evs) ≤ left)%nat
           ∧ (length (Obs.append_calls evs)
              ≤ length (Obs.search_calls evs))%nat.
Proof.
  induction left as [|left IH]; intros retry_count s f s'.
  - intros [= <- <-]. exists []. rewrite app_nil_r. by repeat split.
  - cbn [while_loop].
    destruct (attempt yt pid max_retries delay t retry_count s)
      as [c s1] eqn:E.
    apply attempt_requests in E as (evs1 & Ht1 & Hok1 & Hs1 & Ha1).
    assert (∃ evs, trace (snapshot s1) = trace s ++ evs
                   ∧ Forall (Obs.loop_event pid delay) evs
                   ∧ (length (Obs.search_calls evs) ≤ S left)%nat
                   ∧ (length (Obs.append_calls evs)
                      ≤ length (Obs.search_calls evs))%nat) as Hone.
    { exists evs1. project_state. repeat split; try done; lia. }
    destruct c as [|retry_count'|]; try (by intros [= <- <-]).
    intros H. apply IH in H as (evs & Ht & Hok & Hs & Ha).
    project_state in Ht.
    exists (evs1 ++ evs). rewrite Ht, Ht1, <- app_assoc.
    split; [done|]. split; [by apply Forall_app|].
    unfold Obs.search_calls, Obs.append_calls in *.
    rewrite !omap_app, !length_app. lia.
Qed.

Lemma for_loop_requests copy :
  ∀ s f s',
    for_loop yt pid max_retries delay copy s = (f, s') →
    ∃ evs, trace s' = trace s ++ evs
           ∧ Forall (Obs.loop_event pid delay) evs
           ∧ (length (Obs.search_calls evs)
              ≤ max_retries * length copy)%nat
           ∧ (length (Obs.append_calls evs)
              ≤ length (Obs.search_calls evs))%nat.
Proof.
  induction copy as [|t copy IH]; intros s f s'.
  - intros [= <- <-]. exists []. rewrite app_nil_r.
    repeat split; try done. simpl. lia.
  - cbn [for_loop].
    destruct (while_loop max_retries yt pid max_retries delay t 0 s)
      as [f1 s1] eqn:E.
    apply while_loop_requests in E as (evs1 & Ht1 & Hok1 & Hs1 & Ha1).
    destruct f1.
    + intros H. apply IH in H as (evs & Ht & Hok & Hs & Ha).
      exists (evs1 ++ evs). rewrite Ht, Ht1, <- app_assoc.
      split; [done|]. split; [by apply Forall_app|].
      unfold Obs.search_calls, Obs.append_calls in *.
      rewrite !omap_app, !length_app. simpl. lia.
    + intros [= <- <-]. exists evs1.
      repeat split; try done. simpl. lia.
Qed.

Lemma start_requests tracks (files : gmap string file_content) s0 :
  start pid tracks files = Ok s0 →
  Forall (Obs.loop_event pid delay) (trace s0).
Proof.
  unfold start.
  destruct (Store.load_progress files) as [[p|]|e]; [| |done].
  - case_decide; intros [= <-]; loop_events.
  - intros [= <-]. loop_events.
Qed.

Lemma finish_requests s :
  ∃ evs, trace (finish s) = trace s ++ evs
         ∧ Forall (Obs.loop_event pid delay) evs
         ∧ Obs.search_calls evs = []
         ∧ Obs.append_calls evs = [].
Proof.
  unfold finish. destruct (remaining s).
  - cbv zeta. project_state.
    destruct (fs s !! Store.progress_file).
    + exists [EPrint MsgAllProcessed; EUnlink]. project_state.
      rewrite <- app_assoc. repeat split. loop_events.
    + exists [EPrint MsgAllProcessed]. project_state.
      repeat split. loop_events.
  - exists []. rewrite app_nil_r. by repeat split.
Qed.

(** The effects of a whole call. *)
Lemma run_requests tracks (files : gmap string file_content) s0 e s :
  start pid tracks files = Ok s0 →
  search_and_add_to_playlist yt pid tracks max_retries delay files
  = (e, Some s) →
  Forall (Obs.loop_event pid delay) (trace s)
  ∧ (length (Obs.search_calls (trace s))
     ≤ max_retries * length (remaining s0))%nat
  ∧ (length (Obs.append_calls (trace s))
     ≤ length (Obs.search_calls (trace s)))%nat.
Proof.
  intros Hstart Hrun.
  pose proof (start_requests _ _ _ Hstart) as Hok0.
  pose proof (start_quiet pid _ _ _ Hstart) as (Hsc0 & Hac0 & _).
  apply run_end in Hrun as (s0' & f & s1 & Hstart' & Hloop & Hend).
  rewrite Hstart in Hstart'. injection Hstart' as <-.
  apply for_loop_requests in Hloop as (evs & Ht & Hok & Hs & Ha).
  assert (∃ evs', trace s = trace s1 ++ evs'
                  ∧ Forall (Obs.loop_event pid delay) evs'
                  ∧ Obs.search_calls evs' = []
                  ∧ Obs.append_calls evs' = [])
    as (evs' & Ht' & Hok' & Hs' & Ha').
  { destruct Hend as [(_ & _ & ->)|(_ & _ & ->)].
    - exists []. rewrite app_nil_r. by repeat split.
    - apply finish_requests. }
  rewrite Ht', Ht.
  split; [apply Forall_app; split; [apply Forall_app; split|]; done|].
  unfold Obs.search_calls, Obs.append_calls in *.
  rewrite !omap_app, !length_app, Hsc0, Hac0, Hs', Ha'. simpl. lia.
Qed.

End RequestFacts.

(** X15.  Whatever the client answers, the add loop touches only its own
    playlist: every append of a run goes to the playlist id the function
    was called with, every record it saves names that id, every pause
    lasts [delay] or twice [delay], and the function never looks up or
    creates a playlist. *)
Theorem X15_run_stays_on_its_playlist :
  ∀ (yt : youtube) (pid : string) (tracks : list track)
    (max_retries delay : nat) (files : gmap string file_content)
    (e : Engine.ending) (s : Engine.state),
    Engine.search_and_add_to_playlist yt pid tracks max_retries delay files
    = (e, Some s) →
    Forall (Obs.loop_event pid delay) (Engine.trace s)
    ∧ (∀ p v, (p, v) ∈ Obs.append_calls (Engine.trace s) → p = pid)
    ∧ (∀ r, r ∈ Obs.saves (Engine.trace s) → playlist_id r = pid)
    ∧ (∀ w, w ∈ Obs.waits (Engine.trace s) → w = delay ∨ w = delay * 2)
    ∧ Obs.lookups (Engine.trace s) = []
    ∧ Obs.creations (Engine.trace s) = [].
Proof.
  intros yt pid tracks max_retries delay files e s Hrun.
  assert (∃ s0, Engine.start pid tracks files = Ok s0) as [s0 Hstart].
  { apply run_end in Hrun as (s0 & _ & _ & Hstart & _). by exists s0. }
  destruct (run_requests yt pid max_retries delay tracks files s0 e s
              Hstart Hrun) as (Hall & _).
  split; [exact Hall|].
  revert Hall. generalize (Engine.trace s). intros tr Hall.
  unfold Obs.append_calls, Obs.saves, Obs.waits, Obs.lookups, Obs.creations.
  repeat split.
  - intros p v Hin. apply list_elem_of_omap in Hin as (ev & Hev & Hm).
    apply (proj1 (Forall_forall _ _) Hall) in Hev.
    destruct ev; try discriminate. injection Hm as -> ->. exact Hev.
  - intros r Hin. apply list_elem_of_omap in Hin as (ev & Hev & Hm).
    apply (proj1 (Forall_forall _ _) Hall) in Hev.
    destruct ev; try discriminate. injection Hm as ->. exact Hev.
  - intros w Hin. apply list_elem_of_omap in Hin as (ev & Hev & Hm).
    apply (proj1 (Forall_forall _ _) Hall) in Hev.
    destruct ev; try discriminate. injection Hm as ->. exact Hev.
  - induction Hall as [|ev tr Hev _ IH]; [done|].
    simpl. destruct ev; simpl in *; done.
  - induction Hall as [|ev tr Hev _ IH]; [done|].
    simpl. destruct ev; simpl in *; done.
Qed.

Lemma X15_run_stays_on_its_playlist_witness :
  ∃ s, Engine.search_and_add_to_playlist Examples.yt_flaky "PL"
         Examples.five 3 2 Examples.no_files
       = (Engine.Finished, Some s)
       ∧ ∀ p v, (p, v) ∈ Obs.append_calls (Engine.trace s) → p = "PL".
Proof.
  eexists. split; [vm_compute; reflexivity|].
  eapply (X15_run_stays_on_its_playlist Examples.yt_flaky "PL" Examples.five
            3 2 Examples.no_files).
  vm_compute. reflexivity.
Defined.

(** X16.  A run sends at most [max_retries] searches per track it
    started with, and never more appends than searches: every append is
    preceded by a search of its own. *)
Theorem X16_requests_are_bounded :
  ∀ (yt : youtube) (pid : string) (tracks : list track)
    (max_retries delay : nat) (files : gmap string file_content)
    (s0 : Engine.state) (e : Engine.ending) (s : Engine.state),
    Engine.start pid tracks files = Ok s0 →
    Engine.search_and_add_to_playlist yt pid tracks max_retries delay files
    = (e, Some s) →
    (length (Obs.search_calls (Engine.trace s))
     ≤ max_retries * length (Engine.remaining s0))%nat
    ∧ (length (Obs.append_calls (Engine.trace s))
       ≤ length (Obs.search_calls (Engine.trace s)))%nat.
Proof.
  intros yt pid tracks max_retries delay files s0 e s Hstart Hrun.
  by destruct (run_requests yt pid max_retries delay tracks files s0 e s
                 Hstart Hrun) as (_ & Hs & Ha).
Qed.

Lemma X16_requests_are_bounded_witness :
  ∃ s, Engine.search_and_add_to_playlist Examples.yt_failing "PL"
         [Examples.song_a; Examples.song_b] 3 2 Examples.no_files
       = (Engine.Finished, Some s)
       ∧ (length (Obs.search_calls (Engine.trace s)) ≤ 3 * 2)%nat.
Proof.
  eexists. split; [vm_compute; reflexivity|].
  eapply (X16_requests_are_bounded Examples.yt_failing "PL"
            [Examples.song_a; Examples.song_b] 3 2 Examples.no_files
            (Engine.init_state [] [Examples.song_a; Examples.song_b]
               Examples.no_files [])).
  - reflexivity.
  - vm_compute. reflexivity.
Defined.

(** ** TransferEngine: resuming and ending *)

Lemma start_resume pid tracks (files : gmap string file_content) p :
  Store.load_progress files = Ok (Some p) →
  playlist_id p = pid →
  Engine.start pid tracks files
  = Ok (Engine.init_state (processed_tracks p) (remaining_tracks p) files
          [EPrint MsgResuming;
           EPrint (MsgPreviouslyProcessed (length (processed_tracks p)))]).
Proof.
  intros Hload Heq. unfold Engine.start. by rewrite Hload, decide_True.
Qed.

(** X17.  Resuming completes a transfer: when the progress file holds a
    record for the playlist the function is called with and every track
    of the record's remaining list is found and appended, the call ends
    with [processed] equal to the record's processed names followed by
    the names of its remaining tracks in order, [remaining] empty and
    the file removed.  The [tracks] argument plays no part. *)
Theorem X17_resume_completes :
  ∀ (yt : youtube) (pid : string) (tracks : list track)
    (max_retries delay : nat) (files : gmap string file_content)
    (p : progress),
    Store.load_progress files = Ok (Some p) →
    playlist_id p = pid →
    0 < max_retries →
    (∀ i q, i < length (remaining_tracks p) →
       ∃ vid rest, search_list yt i q = Ok (Some vid :: rest)) →
    (∀ i vid, i < length (remaining_tracks p) →
       playlist_items_insert yt i pid vid = Ok ()) →
    ∃ s,
      Engine.search_and_add_to_playlist yt pid tracks max_retries delay files
      = (Engine.Finished, Some s)
      ∧ Engine.processed s
        = processed_tracks p ++ map name (remaining_tracks p)
      ∧ Engine.remaining s = []
      ∧ Engine.fs s !! Store.progress_file = None.
Proof.
  intros yt pid tracks max_retries delay files p Hload Heq Hpos
    Hsearch Happend.
  unfold Engine.search_and_add_to_playlist.
  rewrite (start_resume pid tracks files p Hload Heq).
  set (s0 := Engine.init_state _ _ _ _).
  destruct (for_loop_all_added yt pid max_retries delay (remaining_tracks p)
              s0 []) as (s1 & E & Hp1 & Hr1 & _); try done.
  - subst s0. project_state. by rewrite app_nil_r.
  - change (Engine.remaining s0) with (remaining_tracks p). rewrite E.
    eexists. split; [reflexivity|].
    destruct (finish_lists s1) as (-> & -> & _).
    split; [exact Hp1|]. split; [exact Hr1|]. by apply finish_done.
Qed.

Lemma X17_resume_completes_witness :
  ∃ s,
    Engine.search_and_add_to_playlist Examples.yt_ok "PL-A" Examples.five
      3 2 Examples.files_a
    = (Engine.Finished, Some s)
    ∧ Engine.processed s = ["c"; "b"]
    ∧ Engine.remaining s = [].
Proof.
  destruct (X17_resume_completes Examples.yt_ok "PL-A" Examples.five 3 2
              Examples.files_a Examples.record_a)
    as (s & Hrun & Hp & Hr & _).
  - reflexivity.
  - reflexivity.
  - lia.
  - intros i q Hi. eexists _, _. reflexivity.
  - intros i vid Hi. reflexivity.
  - exists s. split; [exact Hrun|]. split; [exact Hp|exact Hr].
Defined.

(** X18.  The [while] loop of a track ends: with the condition
    [retry_count < max_retries] tested on every pass as in the source,
    the loop is over after at most [max_retries] attempts, whatever the
    client answers, so that a bound of [max_retries + 1] passes is never
    reached. *)
Theorem X18_retry_loop_ends :
  ∀ (yt : youtube) (pid : string) (max_retries delay : nat) (t : track)
    (s : Engine.state),
    Engine.while_loop_guarded (S max_retries) yt pid max_retries delay t 0 s
    = Some (Engine.while_loop max_retries yt pid max_retries delay t 0 s)
    ∧ ∀ f s',
        Engine.while_loop max_retries yt pid max_retries delay t 0 s
        = (f, s') →
        (length (Obs.search_calls (Obs.since s s')) ≤ max_retries)%nat.
Proof.
  intros yt pid max_retries delay t s. split.
  - apply while_loop_guarded_eq; lia.
  - intros f s' H.
    apply while_loop_requests in H as (evs & Ht & _ & Hs & _).
    by rewrite (since_app s s' _ Ht).
Qed.

(** ** Entry point *)

(** X19.  [transfer_playlist] checks its selectors before anything else:
    without a usable destination name or id it raises the destination
    [ValueError]; with a destination but neither a source playlist id
    nor the liked-songs flag it raises the source [ValueError].  In both
    cases nothing was read, requested or printed, whatever the clients
    and the progress file. *)
Theorem X19_missing_selectors_fail_fast :
  ∀ (fuel : nat) (sp : Extractor.spotify) (yt : youtube)
    (spotify_playlist_id youtube_playlist_name youtube_playlist_id
       : option string)
    (spotify_liked_songs : bool) (files : gmap string file_content),
    (truthy youtube_playlist_name = false →
     truthy youtube_playlist_id = false →
     Transfer.transfer_playlist fuel sp yt spotify_playlist_id
       youtube_playlist_name youtube_playlist_id spotify_liked_songs files
     = Some (Transfer.Aborted
               (ValueError
                  "Either youtube_playlist_name or youtube_playlist_id must be provided")
               []))
    ∧ (truthy youtube_playlist_name || truthy youtube_playlist_id = true →
       truthy spotify_playlist_id = false →
       spotify_liked_songs = false →
       Transfer.transfer_playlist fuel sp yt spotify_playlist_id
         youtube_playlist_name youtube_playlist_id spotify_liked_songs files
       = Some (Transfer.Aborted
                 (ValueError
                    "Either spotify_playlist_id must be provided or spotify_liked_songs must be True")
                 [])).
Proof.
  intros fuel sp yt spid yname yid liked files.
  unfold Transfer.transfer_playlist. split.
  - intros -> ->. reflexivity.
  - intros Hdest -> ->.
    assert (negb (truthy yname) && negb (truthy yid) = false) as ->.
    { rewrite <- negb_orb, Hdest. done. }
    reflexivity.
Qed.

Lemma X19_missing_selectors_fail_fast_witness :
  Transfer.transfer_playlist 0 Examples.sp_stuck Examples.yt_ok
    (Some "SP") (Some "") None true Examples.files_a
  = Some (Transfer.Aborted
            (ValueError
               "Either youtube_playlist_name or youtube_playlist_id must be provided")
            []).
Proof.
  destruct (X19_missing_selectors_fail_fast 0 Examples.sp_stuck
              Examples.yt_ok (Some "SP") (Some "") None true
              Examples.files_a) as [Hdest _].
  apply Hdest; reflexivity.
Defined.

(** X20.  An incomplete progress file blocks every start: [load_progress]
    raises on it, nothing catches the exception, and both
    [search_and_add_to_playlist] and [transfer_playlist] end with it
    before any request.  A save that was interrupted after opening the
    file leaves exactly such a file. *)
Theorem X20_incomplete_file_blocks_every_start :
  ∀ (fuel : nat) (sp : Extractor.spotify) (yt : youtube)
    (spotify_playlist_id youtube_playlist_name youtube_playlist_id
       : option string)
    (spotify_liked_songs : bool) (files : gmap string file_content)
    (pid : string) (tracks : list track) (max_retries delay : nat),
    files !! Store.progress_file = Some Partial →
    Engine.search_and_add_to_playlist yt pid tracks max_retries delay files
    = (Engine.Raised JSONDecodeError, None)
    ∧ (truthy youtube_playlist_name || truthy youtube_playlist_id = true →
       truthy spotify_playlist_id || spotify_liked_songs = true →
       Transfer.transfer_playlist fuel sp yt spotify_playlist_id
         youtube_playlist_name youtube_playlist_id spotify_liked_songs files
       = Some (Transfer.Aborted JSONDecodeError [])).
Proof.
  intros fuel sp yt spid yname yid liked files pid tracks max_retries delay
    Hfile.
  assert (Store.load_progress files = Raise JSONDecodeError) as Hload.
  { unfold Store.load_progress. by rewrite Hfile. }
  split.
  - unfold Engine.search_and_add_to_playlist, Engine.start.
    by rewrite Hload.
  - intros Hdest Hsrc. unfold Transfer.transfer_playlist.
    assert (negb (truthy yname) && negb (truthy yid) = false) as ->.
    { rewrite <- negb_orb, Hdest. done. }
    assert (negb (truthy spid) && negb liked = false) as ->.
    { rewrite <- negb_orb, Hsrc. done. }
    by rewrite Hload.
Qed.

Lemma X20_incomplete_file_blocks_every_start_witness :
  Engine.search_and_add_to_playlist Examples.yt_ok "PL-A" Examples.five 3 2
    (Store.crash_during_save 1 "PL-A" ["c"; "b"] [] Examples.files_a)
  = (Engine.Raised JSONDecodeError, None).
Proof.
  destruct (X20_incomplete_file_blocks_every_start 0 Examples.sp_empty
              Examples.yt_ok None None None true
              (Store.crash_during_save 1 "PL-A" ["c"; "b"] []
                 Examples.files_a)
              "PL-A" Examples.five 3 2) as [Hrun _].
  - reflexivity.
  - exact Hrun.
Defined.

(** X21.  On a first run (no progress file) the source is read before
    the destination is resolved: when the destination id given is not
    known to YouTube, [transfer_playlist] raises the resolver's
    [ValueError] after the whole extraction and a single look-up; no
    search, append or save was made. *)
Theorem X21_unknown_destination_aborts_after_extraction :
  ∀ (fuel : nat) (sp : Extractor.spotify) (yt : youtube)
    (spotify_playlist_id youtube_playlist_name : option string)
    (id : string) (spotify_liked_songs : bool)
    (files : gmap string file_content) (tracks : list track),
    files !! Store.progress_file = None →
    id ≠ "" →
    truthy spotify_playlist_id || spotify_liked_songs = true →
    Extractor.get_spotify_tracks fuel sp (default "" spotify_playlist_id)
      spotify_liked_songs = Some tracks →
    playlists_list yt id = Ok [] →
    Transfer.transfer_playlist fuel sp yt spotify_playlist_id
      youtube_playlist_name (Some id) spotify_liked_songs files
    = Some (Transfer.Aborted
              (ValueError ("No playlist found with ID: " +:+ id))
              [EPrint MsgGettingTracks; EPrint MsgCreatingPlaylist;
               EPlaylistsList id]).
Proof.
  intros fuel sp yt spid yname id liked files tracks Hfile Hid Hsrc
    Hextract Hlist.
  unfold Transfer.transfer_playlist.
  assert (truthy (Some id) = true) as Htrue
    by (simpl; by apply bool_decide_eq_true).
  rewrite Htrue, andb_false_r.
  assert (negb (truthy spid) && negb liked = false) as ->.
  { rewrite <- negb_orb, Hsrc. done. }
  assert (Store.load_progress files = Ok None) as ->
    by by apply load_none_iff.
  rewrite Hextract.
  unfold Resolver.create_or_get_youtube_playlist. rewrite Htrue. simpl.
  by rewrite Hlist.
Qed.

Lemma X21_unknown_destination_aborts_after_extraction_witness :
  Transfer.transfer_playlist 4 Examples.sp_small Examples.yt_nothing
    (Some "SP") None (Some "PL-X") false Examples.no_files
  = Some (Transfer.Aborted
            (ValueError "No playlist found with ID: PL-X")
            [EPrint MsgGettingTracks; EPrint MsgCreatingPlaylist;
             EPlaylistsList "PL-X"]).
Proof.
  apply (X21_unknown_destination_aborts_after_extraction 4 Examples.sp_small
           Examples.yt_nothing (Some "SP") None "PL-X" false
           Examples.no_files
           [Track "s1" ["artist"]; Track "s2" ["artist"]]).
  - reflexivity.
  - discriminate.
  - reflexivity.
  - vm_compute. reflexivity.
  - reflexivity.
Defined.

Lemma X7_descriptor_skips_exactly_incomplete_items_witness :
  Extractor.descriptor Examples.nameless_item = None.
Proof.
  apply (X7_descriptor_skips_exactly_incomplete_items Examples.nameless_item).
  right. eexists. split; [reflexivity|]. by left.
Defined.

Lemma X8_empty_selectors_count_as_absent_witness :
  Resolver.create_or_get_youtube_playlist Examples.yt_ok (Some "mix")
    (Some "") Resolver.default_description
  = (Examples.created "mix" Resolver.default_description "private",
     [EPlaylistsInsert "mix" Resolver.default_description "private"]).
Proof.
  destruct (X8_empty_selectors_count_as_absent Examples.yt_ok (Some "mix")
              None Resolver.default_description) as (_ & _ & _ & Hname).
  apply Hname. discriminate.
Defined.

Lemma X18_retry_loop_ends_witness :
  ∃ s',
    Engine.while_loop 3 Examples.yt_failing "PL" 3 2 Examples.song_a 0
      (Engine.init_state [] [Examples.song_a] Examples.no_files [])
    = (Engine.NextTrack, s')
    ∧ (length
         (Obs.search_calls
            (Obs.since
               (Engine.init_state [] [Examples.song_a] Examples.no_files [])
               s')) ≤ 3)%nat.
Proof.
  eexists. split; [vm_compute; reflexivity|].
  eapply (X18_retry_loop_ends Examples.yt_failing "PL" 3 2 Examples.song_a
            (Engine.init_state [] [Examples.song_a] Examples.no_files [])).
  vm_compute. reflexivity.
Defined.
